(** * deno-sqlite: the wasm boundary layer ([src/wasm.ts])

    A shallow embedding of [SqliteError], [setStr], [setArr] and [getStr],
    together with the host primitives they rely on (32-bit bitwise
    operators, [String.fromCharCode], [TextEncoder], [TextDecoder], typed
    array views over the linear memory of the module).

    Conventions.
    - A host string is the list of its UTF-16 code units.
    - A byte is a [Z] in [0, 255]; the linear memory is a list of bytes.
    - Effectful code runs in a state and exception monad over the store of
      the wasm instance, extended with a log of the calls crossing the
      boundary. *)

From Stdlib Require Import ZArith List String Ascii Bool Lia.
Import ListNotations.
Local Open Scope Z_scope.

(* ===================================================================== *)
(** ** Host numbers and strings *)
(* ===================================================================== *)

Module JS.

(** A host string: its UTF-16 code units. *)
Definition jsstring := list Z.

(** The abstract operation [ToInt32]: wrap to the signed 32-bit range. *)
Definition ToInt32 (x : Z) : Z := (x + 2 ^ 31) mod 2 ^ 32 - 2 ^ 31.

(** The abstract operation [ToUint16]. *)
Definition ToUint16 (x : Z) : Z := x mod 2 ^ 16.

(** [a & b] *)
Definition band (a b : Z) : Z := ToInt32 (Z.land (ToInt32 a) (ToInt32 b)).

(** [a | b] *)
Definition bor (a b : Z) : Z := ToInt32 (Z.lor (ToInt32 a) (ToInt32 b)).

(** [a << k]: the shift count is taken modulo 32. *)
Definition shl (a k : Z) : Z := ToInt32 (Z.shiftl (ToInt32 a) (k mod 32)).

(** [a >> k]: sign-propagating shift of the 32-bit value. *)
Definition sar (a k : Z) : Z := Z.shiftr (ToInt32 a) (k mod 32).

(** [String.fromCharCode(c1, ..., cn)]. *)
Definition fromCharCode (codes : list Z) : jsstring := map ToUint16 codes.

(** Reading a typed array at an index: [None] stands for [undefined]
    (index outside the view). *)
Definition element (bytes : list Z) (idx : nat) : option Z := nth_error bytes idx.

(** The number an element yields where the source uses it: every use in
    [getStr] goes through [ToInt32] or [ToUint16], under which
    [undefined] (that is NaN) becomes 0. *)
Definition num (v : option Z) : Z :=
  match v with
  | Some n => n
  | None => 0
  end.

(** A string literal of the source (ASCII only). *)
Fixpoint lit (s : string) : jsstring :=
  match s with
  | EmptyString => []
  | String c rest => Z.of_nat (nat_of_ascii c) :: lit rest
  end.

End JS.

(* ===================================================================== *)
(** ** UTF-8: the platform encoder and decoder *)
(* ===================================================================== *)

Module Utf8.

Definition in_range (lo hi b : Z) : bool := (lo <=? b) && (b <=? hi).

Definition is_high_surrogate (c : Z) : bool := in_range 0xD800 0xDBFF c.
Definition is_low_surrogate (c : Z) : bool := in_range 0xDC00 0xDFFF c.

(** Conversion of a host string to a sequence of scalar values: a
    surrogate pair becomes one code point, an unpaired surrogate becomes
    U+FFFD.  [TextEncoder.encode] takes its argument through this
    conversion. *)
Fixpoint to_scalars (s : JS.jsstring) : list Z :=
  match s with
  | [] => []
  | c :: rest =>
      if is_high_surrogate c then
        match rest with
        | d :: rest' =>
            if is_low_surrogate d
            then (0x10000 + (c - 0xD800) * 0x400 + (d - 0xDC00)) :: to_scalars rest'
            else 0xFFFD :: to_scalars rest
        | [] => [0xFFFD]
        end
      else if is_low_surrogate c then 0xFFFD :: to_scalars rest
      else c :: to_scalars rest
  end.

(** The UTF-8 encoder, for one code point: a lead byte carrying the top
    bits plus an offset, then continuation bytes [0x80 | (bits & 0x3F)]. *)
Definition encode_cp (c : Z) : list Z :=
  if c <=? 0x7F then [c]
  else if c <=? 0x7FF then
    [Z.shiftr c 6 + 0xC0;
     Z.lor 0x80 (Z.land c 0x3F)]
  else if c <=? 0xFFFF then
    [Z.shiftr c 12 + 0xE0;
     Z.lor 0x80 (Z.land (Z.shiftr c 6) 0x3F);
     Z.lor 0x80 (Z.land c 0x3F)]
  else
    [Z.shiftr c 18 + 0xF0;
     Z.lor 0x80 (Z.land (Z.shiftr c 12) 0x3F);
     Z.lor 0x80 (Z.land (Z.shiftr c 6) 0x3F);
     Z.lor 0x80 (Z.land c 0x3F)].

Definition encode_cps (cps : list Z) : list Z := flat_map encode_cp cps.

(** [new TextEncoder().encode(str)] *)
Definition TextEncoder_encode (str : JS.jsstring) : list Z :=
  encode_cps (to_scalars str).

(** State of the streaming UTF-8 decoder. *)
Record decoder := mkDecoder {
  code_point : Z;
  bytes_seen : Z;
  bytes_needed : Z;
  lower_boundary : Z;
  upper_boundary : Z
}.

Definition decoder_init : decoder := mkDecoder 0 0 0 0x80 0xBF.

(** A byte arriving while no sequence is open. *)
Definition decoder_lead (b : Z) : decoder * list Z :=
  if in_range 0x00 0x7F b then (decoder_init, [b])
  else if in_range 0xC2 0xDF b then
    (mkDecoder (Z.land b 0x1F) 0 1 0x80 0xBF, [])
  else if in_range 0xE0 0xEF b then
    (mkDecoder (Z.land b 0xF) 0 2
       (if b =? 0xE0 then 0xA0 else 0x80)
       (if b =? 0xED then 0x9F else 0xBF), [])
  else if in_range 0xF0 0xF4 b then
    (mkDecoder (Z.land b 0x7) 0 3
       (if b =? 0xF0 then 0x90 else 0x80)
       (if b =? 0xF4 then 0x8F else 0xBF), [])
  else (decoder_init, [0xFFFD]).

(** One byte through the decoder: the next state and the code points
    emitted.  A byte outside the expected boundaries closes the open
    sequence with U+FFFD and is then processed again as a lead byte. *)
Definition decoder_step (st : decoder) (b : Z) : decoder * list Z :=
  if bytes_needed st =? 0 then decoder_lead b
  else if negb (in_range (lower_boundary st) (upper_boundary st) b) then
    let (st', out) := decoder_lead b in (st', 0xFFFD :: out)
  else
    let cp := Z.lor (Z.shiftl (code_point st) 6) (Z.land b 0x3F) in
    if bytes_seen st + 1 =? bytes_needed st then (decoder_init, [cp])
    else (mkDecoder cp (bytes_seen st + 1) (bytes_needed st) 0x80 0xBF, []).

Fixpoint decoder_run (st : decoder) (bytes : list Z) : list Z :=
  match bytes with
  | [] => if bytes_needed st =? 0 then [] else [0xFFFD]
  | b :: rest =>
      let (st', out) := decoder_step st b in
      out ++ decoder_run st' rest
  end.

(** A leading byte order mark is dropped (the decoder is created with
    its default options, so [ignoreBOM] is false). *)
Definition strip_bom (bytes : list Z) : list Z :=
  match bytes with
  | b0 :: b1 :: b2 :: rest =>
      if (b0 =? 0xEF) && (b1 =? 0xBB) && (b2 =? 0xBF) then rest else bytes
  | _ => bytes
  end.

(** UTF-16 code units of one code point. *)
Definition utf16_cp (c : Z) : JS.jsstring :=
  if c <? 0x10000 then [c]
  else [0xD800 + Z.shiftr (c - 0x10000) 10; 0xDC00 + Z.land (c - 0x10000) 0x3FF].

Definition utf16 (cps : list Z) : JS.jsstring := flat_map utf16_cp cps.

(** [new TextDecoder().decode(bytes)] *)
Definition TextDecoder_decode (bytes : list Z) : JS.jsstring :=
  utf16 (decoder_run decoder_init (strip_bom bytes)).

(** Well-formed UTF-8 (table 3-7 of the Unicode standard), as a strict
    parser: the code points of [bytes] when every sequence is well formed
    and complete, [None] otherwise. *)
Fixpoint parse (bytes : list Z) : option (list Z) :=
  match bytes with
  | [] => Some []
  | b0 :: r0 =>
    if in_range 0x00 0x7F b0 then option_map (cons b0) (parse r0)
    else
      match r0 with
      | [] => None
      | b1 :: r1 =>
        if in_range 0xC2 0xDF b0 then
          if in_range 0x80 0xBF b1
          then option_map (cons ((b0 - 0xC0) * 64 + (b1 - 0x80))) (parse r1)
          else None
        else
          match r1 with
          | [] => None
          | b2 :: r2 =>
            if in_range 0xE0 0xEF b0 then
              if in_range (if b0 =? 0xE0 then 0xA0 else 0x80)
                          (if b0 =? 0xED then 0x9F else 0xBF) b1
                 && in_range 0x80 0xBF b2
              then option_map
                     (cons ((b0 - 0xE0) * 4096 + (b1 - 0x80) * 64 + (b2 - 0x80)))
                     (parse r2)
              else None
            else
              match r2 with
              | [] => None
              | b3 :: r3 =>
                if in_range 0xF0 0xF4 b0
                   && in_range (if b0 =? 0xF0 then 0x90 else 0x80)
                               (if b0 =? 0xF4 then 0x8F else 0xBF) b1
                   && in_range 0x80 0xBF b2
                   && in_range 0x80 0xBF b3
                then option_map
                       (cons ((b0 - 0xF0) * 262144 + (b1 - 0x80) * 4096
                              + (b2 - 0x80) * 64 + (b3 - 0x80)))
                       (parse r3)
                else None
              end
          end
      end
  end.

Definition valid (bytes : list Z) : bool :=
  match parse bytes with
  | Some _ => true
  | None => false
  end.

(** A Unicode scalar value: a code point that is not a surrogate. *)
Definition scalar (c : Z) : Prop :=
  0 <= c < 0xD800 \/ 0xE000 <= c < 0x110000.

(** A host string without unpaired surrogates, every unit a 16-bit value. *)
Fixpoint well_formed (s : JS.jsstring) : bool :=
  match s with
  | [] => true
  | c :: rest =>
      if is_high_surrogate c then
        match rest with
        | d :: rest' => is_low_surrogate d && well_formed rest'
        | [] => false
        end
      else in_range 0 0xFFFF c && negb (is_low_surrogate c) && well_formed rest
  end.

End Utf8.

(* ===================================================================== *)
(** ** The [Status] enumeration *)
(* ===================================================================== *)

Module Enum.

(** Modelled from the spec: the [Status] enumeration lives in
    [src/constants.ts], which is not among the sources.  The spec
    describes it as a fixed enumeration of integer status codes with a
    bidirectional mapping to symbolic names, containing [Unknown] and
    naming code 19 [SqliteConstraint].  A numeric enumeration is given
    here by its members in declaration order; the object the compiler
    emits for it maps each name to its value and each value back to the
    name of the last member declared with it. *)
Definition enum := list (string * Z).

(** [E[v]]: the reverse mapping; a later member overrides an earlier one
    declared with the same value. *)
Fixpoint name_of (e : enum) (v : Z) : option string :=
  match e with
  | [] => None
  | (n, v') :: rest =>
      match name_of rest v with
      | Some n' => Some n'
      | None => if v' =? v then Some n else None
      end
  end.

(** Member names are identifiers, hence non-empty. *)
Definition identifiers (e : enum) : Prop :=
  Forall (fun m => fst m <> EmptyString) e.

(** Modelled from the spec: the two members the spec names.  The value
    of [Unknown] is not fixed by the spec and is left as a parameter. *)
Definition Status_of_spec (unknown : Z) : enum :=
  [("Unknown"%string, unknown); ("SqliteConstraint"%string, 19)].

End Enum.

(* ===================================================================== *)
(** ** The wasm instance, the store and the effect monad *)
(* ===================================================================== *)

Module Wasm.

Import JS.

Section Instance.

(** The private state of the module instance (allocator bookkeeping,
    last error, last status): opaque to the host. *)
Context {F : Type}.

(** What the host can observe of the instance: its linear memory
    ([wasm.memory.buffer]) and, opaquely, the rest. *)
Record Store := mkStore {
  buffer : list Z;
  private : F
}.

(** The window of [len] bytes at [byteOffset] lies within [buf]. *)
Definition fits (byteOffset len : Z) (buf : list Z) : bool :=
  (0 <=? byteOffset) && (0 <=? len)
  && (byteOffset + len <=? Z.of_nat (List.length buf)).

(** Modelled from the spec: the type [Wasm] of the handle is declared in
    [build/sqlite.d.ts], which is not among the sources.  The exports
    used by this layer are those of the spec's table of external
    interfaces: [malloc] and [free] update the store and return without
    raising; [str_len], [get_sqlite_error_str] and [get_status] are
    read-only accessors.  [malloc] comes with its contract: a result
    other than 0 is the base of a block of [size] bytes lying inside the
    linear memory. *)
Record Handle := mkHandle {
  malloc : Z -> Store -> Z * Store;
  free : Z -> Store -> Store;
  str_len : Z -> Store -> Z;
  get_sqlite_error_str : Store -> Z;
  get_status : Store -> Z;
  malloc_fits : forall size s ptr s',
    0 <= size -> malloc size s = (ptr, s') -> ptr <> 0 ->
    fits ptr size (buffer s') = true
}.

(** Calls crossing the boundary, in the order they happen. *)
Inductive Event :=
| EvMalloc (size ptr : Z)
| EvFree (ptr : Z)
| EvCall (ptr : Z).

Record World := mkWorld {
  store : Store;
  log : list Event
}.

(** [class SqliteError extends Error]: the message of the [Error] and
    the [code] member ([name] is the constant "SqliteError"). *)
Record SqliteError := mkSqliteError {
  message : jsstring;
  code : Z
}.

(** Values that can be thrown: a [SqliteError], the [RangeError] of a
    typed array constructor, or any other value (identified by [ref]). *)
Inductive exn :=
| ESqlite (e : SqliteError)
| ERange
| EOther (ref : Z).

Inductive Outcome (A : Type) :=
| Return (a : A)
| Throw (e : exn).

Definition M (A : Type) : Type := World -> Outcome A * World.

Definition ret {A} (a : A) : M A := fun w => (Return A a, w).

Definition throw {A} (e : exn) : M A := fun w => (Throw A e, w).

Definition bind {A B} (m : M A) (k : A -> M B) : M B :=
  fun w =>
    match m w with
    | (Return _ a, w') => k a w'
    | (Throw _ e, w') => (Throw B e, w')
    end.

(** [try { body } catch (error) { handler }] *)
Definition try_catch {A} (body : M A) (handler : exn -> M A) : M A :=
  fun w =>
    match body w with
    | (Return _ a, w') => (Return A a, w')
    | (Throw _ e, w') => handler e w'
    end.

Definition record (ev : Event) (w : World) : World :=
  mkWorld (store w) (log w ++ [ev]).

(** [wasm.malloc(size)] *)
Definition call_malloc (wasm : Handle) (size : Z) : M Z :=
  fun w =>
    let (ptr, s) := malloc wasm size (store w) in
    (Return Z ptr, mkWorld s (log w ++ [EvMalloc size ptr])).

(** [wasm.free(ptr)] *)
Definition call_free (wasm : Handle) (ptr : Z) : M unit :=
  fun w => (Return unit tt, mkWorld (free wasm ptr (store w)) (log w ++ [EvFree ptr])).

(** [closure(ptr)] *)
Definition call_closure {T} (closure : Z -> M T) (ptr : Z) : M T :=
  fun w => closure ptr (record (EvCall ptr) w).

(** [wasm.str_len(ptr)] *)
Definition call_str_len (wasm : Handle) (ptr : Z) : M Z :=
  fun w => (Return Z (str_len wasm ptr (store w)), w).

(** [wasm.get_sqlite_error_str()] *)
Definition call_get_sqlite_error_str (wasm : Handle) : M Z :=
  fun w => (Return Z (get_sqlite_error_str wasm (store w)), w).

(** [wasm.get_status()] *)
Definition call_get_status (wasm : Handle) : M Z :=
  fun w => (Return Z (get_status wasm (store w)), w).

(** A [Uint8Array] over the linear memory: a window, not a copy. *)
Record view := mkView {
  byteOffset : Z;
  length : Z
}.

(** [new Uint8Array(wasm.memory.buffer, byteOffset, length)]: a
    [RangeError] unless the window lies within the buffer. *)
Definition new_Uint8Array (byteOffset len : Z) : M view :=
  fun w =>
    if fits byteOffset len (buffer (store w))
    then (Return view (mkView byteOffset len), w)
    else (Throw view ERange, w).

(** The bytes of [buf] from [off] on replaced by [src]. *)
Definition overwrite (off : nat) (src buf : list Z) : list Z :=
  firstn off buf ++ src ++ skipn (off + List.length src) buf.

Definition poke (off : nat) (src : list Z) (w : World) : World :=
  mkWorld (mkStore (overwrite off src (buffer (store w))) (private (store w)))
          (log w).

(** [mem.set(src)]: a [RangeError] when [src] is longer than the view. *)
Definition view_set (mem : view) (src : list Z) : M unit :=
  fun w =>
    if Z.of_nat (List.length src) <=? length mem
    then (Return unit tt, poke (Z.to_nat (byteOffset mem)) src w)
    else (Throw unit ERange, w).

(** [mem[idx] = x]: the value is stored modulo 256; a store outside the
    view is ignored. *)
Definition view_store (mem : view) (idx x : Z) : M unit :=
  fun w =>
    if (0 <=? idx) && (idx <? length mem)
    then (Return unit tt, poke (Z.to_nat (byteOffset mem + idx)) [x mod 256] w)
    else (Return unit tt, w).

(** The current contents of a view. *)
Definition view_contents (mem : view) : M (list Z) :=
  fun w =>
    (Return _ (firstn (Z.to_nat (length mem))
                 (skipn (Z.to_nat (byteOffset mem)) (buffer (store w)))), w).

End Instance.

Arguments Store : clear implicits.
Arguments Handle : clear implicits.
Arguments World : clear implicits.
Arguments M : clear implicits.
Arguments Return {A} a.
Arguments Throw {A} e.

Declare Scope js_scope.
Delimit Scope js_scope with js.
Notation "x <- m ;; k" := (bind m (fun x => k))
  (at level 61, m at next level, right associativity) : js_scope.
Notation "m ;; k" := (bind m (fun _ => k))
  (at level 61, right associativity) : js_scope.

End Wasm.

(* ===================================================================== *)
(** ** [src/wasm.ts] *)
(* ===================================================================== *)

Module Layer.

Import JS Wasm.
Local Open Scope js_scope.

(** The short-string loop of [getStr] over the view [bytes] of [len]
    elements.  [str] and [idx] are the variables of the source; [reads]
    collects, in order, every index at which [bytes] is read.  One unit
    of [fuel] is spent per iteration of the [while]; [None] when it runs
    out. *)
Fixpoint decode_loop (fuel : nat) (bytes : list Z) (len idx : nat)
    (str : jsstring) (reads : list nat) : option (jsstring * list nat) :=
  if (idx <? len)%nat then
    match fuel with
    | O => None
    | S fuel =>
      let u0 := num (element bytes idx) in
      let reads := reads ++ [idx] in
      let idx := S idx in
      if band u0 0x80 =? 0 then
        decode_loop fuel bytes len idx (str ++ fromCharCode [u0]) reads
      else
        let u1 := band (num (element bytes idx)) 63 in
        let reads := reads ++ [idx] in
        let idx := S idx in
        if band u0 0xE0 =? 0xC0 then
          decode_loop fuel bytes len idx
            (str ++ fromCharCode [bor (shl (band u0 31) 6) u1]) reads
        else
          let u2 := band (num (element bytes idx)) 63 in
          let reads := reads ++ [idx] in
          let idx := S idx in
          let '(u0, idx, reads) :=
            if band u0 0xF0 =? 0xE0 then
              (bor (bor (shl (band u0 15) 12) (shl u1 6)) u2, idx, reads)
            else
              (bor (bor (bor (shl (band u0 7) 18) (shl u1 12)) (shl u2 6))
                   (band (num (element bytes idx)) 63),
               S idx, reads ++ [idx]) in
          if u0 <? 0x10000 then
            decode_loop fuel bytes len idx (str ++ fromCharCode [u0]) reads
          else
            let ch := u0 - 0x10000 in
            decode_loop fuel bytes len idx
              (str ++ fromCharCode [bor 0xD800 (sar ch 10);
                                    bor 0xDC00 (band ch 0x3FF)]) reads
    end
  else Some (str, reads).

(** The [else] branch of [getStr]: [str = ""], [idx = 0], then the loop.
    Every iteration advances [idx], so [len] units of fuel are enough
    (lemma [decode_loop_total]). *)
Definition decode_short (bytes : list Z) (len : nat) : option (jsstring * list nat) :=
  decode_loop len bytes len 0 [] [].

Section WithStatus.

Context {F : Type}.

(** [Status.Unknown]: the value of that member of the enumeration, which
    [src/constants.ts] (not among the sources) fixes. *)
Variable Status_Unknown : Z.

(** Read string from C. *)
Definition getStr (wasm : Handle F) (ptr : Z) : M F jsstring :=
  len <- call_str_len wasm ptr ;;
  bytes <- new_Uint8Array ptr len ;;
  content <- view_contents bytes ;;
  if len >? 16 then
    ret (Utf8.TextDecoder_decode content)
  else
    match decode_short content (Z.to_nat len) with
    | Some (str, _) => ret str
    | None => ret [] (* not reached: [decode_loop_total] *)
    end.

(** [new SqliteError(context, code)] *)
Definition new_SqliteError (context : Handle F + jsstring) (code : option Z)
  : M F SqliteError :=
  match context with
  | inr text =>
      let message := text in
      let status := Status_Unknown in
      ret (mkSqliteError message (match code with Some c => c | None => status end))
  | inl wasm =>
      p <- call_get_sqlite_error_str wasm ;;
      message <- getStr wasm p ;;
      status <- call_get_status wasm ;;
      ret (mkSqliteError message (match code with Some c => c | None => status end))
  end.

(** [get codeName()]: [Status[this.code]]. *)
Definition codeName (Status : Enum.enum) (e : SqliteError) : option string :=
  Enum.name_of Status (code e).

(** Move string to C. *)
Definition setStr {T} (wasm : Handle F) (str : jsstring) (closure : Z -> M F T)
  : M F T :=
  let bytes := Utf8.TextEncoder_encode str in
  let n := Z.of_nat (List.length bytes) in
  ptr <- call_malloc wasm (n + 1) ;;
  if ptr =? 0 then
    e <- new_SqliteError (inr (lit "Out of memory.")) None ;;
    throw (ESqlite e)
  else
    mem <- new_Uint8Array ptr (n + 1) ;;
    view_set mem bytes ;;
    view_store mem n 0 ;;
    try_catch
      (result <- call_closure closure ptr ;;
       call_free wasm ptr ;;
       ret result)
      (fun error =>
         call_free wasm ptr ;;
         throw error).

(** Move Uint8Array to C. *)
Definition setArr {T} (wasm : Handle F) (arr : list Z) (closure : Z -> M F T)
  : M F T :=
  let n := Z.of_nat (List.length arr) in
  ptr <- call_malloc wasm n ;;
  if ptr =? 0 then
    e <- new_SqliteError (inr (lit "Out of memory.")) None ;;
    throw (ESqlite e)
  else
    mem <- new_Uint8Array ptr n ;;
    view_set mem arr ;;
    try_catch
      (result <- call_closure closure ptr ;;
       call_free wasm ptr ;;
       ret result)
      (fun error =>
         call_free wasm ptr ;;
         throw error).

(** The two "move in" operations under one name, for the properties they
    share. *)
Inductive payload :=
| Str (str : jsstring)
| Arr (arr : list Z).

Definition move_in {T} (wasm : Handle F) (p : payload) (closure : Z -> M F T)
  : M F T :=
  match p with
  | Str str => setStr wasm str closure
  | Arr arr => setArr wasm arr closure
  end.

(** The bytes a payload occupies in foreign memory. *)
Definition image (p : payload) : list Z :=
  match p with
  | Str str => Utf8.TextEncoder_encode str ++ [0]
  | Arr arr => arr
  end.

End WithStatus.

End Layer.

(* ===================================================================== *)
(** ** Vocabulary of the properties *)
(* ===================================================================== *)

Module Props.

Import JS Wasm Layer.

(** Well-formed UTF-8 as a relation between a byte sequence and the code
    points it denotes, one constructor per sequence length. *)
Inductive wf_utf8 : list Z -> list Z -> Prop :=
| wf_nil : wf_utf8 [] []
| wf_one b0 r cps :
    0 <= b0 <= 0x7F ->
    wf_utf8 r cps ->
    wf_utf8 (b0 :: r) (b0 :: cps)
| wf_two b0 b1 r cps :
    0xC2 <= b0 <= 0xDF ->
    0x80 <= b1 <= 0xBF ->
    wf_utf8 r cps ->
    wf_utf8 (b0 :: b1 :: r) (((b0 - 0xC0) * 64 + (b1 - 0x80)) :: cps)
| wf_three b0 b1 b2 r cps :
    0xE0 <= b0 <= 0xEF ->
    0x80 <= b1 <= 0xBF ->
    (b0 = 0xE0 -> 0xA0 <= b1) ->
    (b0 = 0xED -> b1 <= 0x9F) ->
    0x80 <= b2 <= 0xBF ->
    wf_utf8 r cps ->
    wf_utf8 (b0 :: b1 :: b2 :: r)
            (((b0 - 0xE0) * 4096 + (b1 - 0x80) * 64 + (b2 - 0x80)) :: cps)
| wf_four b0 b1 b2 b3 r cps :
    0xF0 <= b0 <= 0xF4 ->
    0x80 <= b1 <= 0xBF ->
    (b0 = 0xF0 -> 0x90 <= b1) ->
    (b0 = 0xF4 -> b1 <= 0x8F) ->
    0x80 <= b2 <= 0xBF ->
    0x80 <= b3 <= 0xBF ->
    wf_utf8 r cps ->
    wf_utf8 (b0 :: b1 :: b2 :: b3 :: r)
            (((b0 - 0xF0) * 262144 + (b1 - 0x80) * 4096
              + (b2 - 0x80) * 64 + (b3 - 0x80)) :: cps).

(** A host string that begins with U+FEFF (the byte order mark). *)
Definition leading_bom (s : jsstring) : bool :=
  match s with
  | c :: _ => c =? 0xFEFF
  | [] => false
  end.

(** What [getStr] returns for the bytes it finds in its view. *)
Definition decoded (len : Z) (bytes : list Z) : jsstring :=
  if len >? 16 then Utf8.TextDecoder_decode bytes
  else match decode_short bytes (Z.to_nat len) with
       | Some (str, _) => str
       | None => []
       end.

(** Number of [free(ptr)] calls in a log. *)
Fixpoint frees (ptr : Z) (l : list Event) : nat :=
  match l with
  | [] => O
  | EvFree p :: rest => if p =? ptr then S (frees ptr rest) else frees ptr rest
  | _ :: rest => frees ptr rest
  end.

(** Number of invocations of the continuation in a log. *)
Fixpoint calls (l : list Event) : nat :=
  match l with
  | [] => O
  | EvCall _ :: rest => S (calls rest)
  | _ :: rest => calls rest
  end.

Section Worlds.

Context {F : Type}.

(** Size requested from the allocator for a payload. *)
Definition request (p : payload) : Z := Z.of_nat (List.length (image p)).

(** The world in which the continuation starts: the image of the
    payload written at [ptr] into the store [s] left by [malloc], the
    allocation and the invocation logged after [lg]. *)
Definition entered (p : payload) (ptr : Z) (s : Store F) (lg : list Event)
  : World F :=
  mkWorld (mkStore (overwrite (Z.to_nat ptr) (image p) (buffer s)) (private s))
          (lg ++ [EvMalloc (request p) ptr; EvCall ptr]).

(** What a "move in" operation makes of the way the continuation ends:
    same outcome, the pointer freed. *)
Definition released {T} (wasm : Handle F) (ptr : Z) (r : Outcome T * World F)
  : Outcome T * World F :=
  let (o, w) := r in
  (o, mkWorld (free wasm ptr (store w)) (log w ++ [EvFree ptr])).

(** The bytes of a buffer in the window [ptr, ptr + len). *)
Definition window (ptr len : Z) (buf : list Z) : list Z :=
  firstn (Z.to_nat len) (skipn (Z.to_nat ptr) buf).

End Worlds.

End Props.

(* ===================================================================== *)
(** ** A small instance to run the layer on *)
(* ===================================================================== *)

Module Sample.

Import JS Wasm Layer.

(** Private state: the break of a bump allocator, the address of the
    last error message and the last status. *)
Record arena := mkArena {
  brk : Z;
  errmsg : Z;
  status : Z
}.

(** [strlen]: distance from [ptr] to the first zero byte. *)
Fixpoint strlen_from (bytes : list Z) : Z :=
  match bytes with
  | [] => 0
  | b :: rest => if b =? 0 then 0 else 1 + strlen_from rest
  end.

Definition bump_malloc (size : Z) (s : Store arena) : Z * Store arena :=
  let a := private s in
  if fits (brk a) size (buffer s)
  then (brk a, mkStore (buffer s) (mkArena (brk a + size) (errmsg a) (status a)))
  else (0, s).

Definition bump_malloc_fits (size : Z) (s : Store arena) (ptr : Z) (s' : Store arena) :
  0 <= size -> bump_malloc size s = (ptr, s') -> ptr <> 0 ->
  fits ptr size (buffer s') = true.
Proof.
  unfold bump_malloc. intros _ H Hp.
  destruct (fits (brk (private s)) size (buffer s)) eqn:E;
    inversion H; subst; [exact E | contradiction].
Qed.

Definition bump : Handle arena :=
  mkHandle
    bump_malloc
    (fun ptr s => s)
    (fun ptr s => strlen_from (skipn (Z.to_nat ptr) (buffer s)))
    (fun s => errmsg (private s))
    (fun s => status (private s))
    bump_malloc_fits.

(** A zeroed memory of [size] bytes, allocation starting at address 8. *)
Definition blank (size : nat) : World arena :=
  mkWorld (mkStore (repeat 0 size) (mkArena 8 0 0)) [].

(** A memory holding [text] at address 8, reported as the last error
    message with status [st]. *)
Definition failed (text : list Z) (st : Z) : World arena :=
  mkWorld (mkStore (repeat 0 8 ++ text ++ repeat 0 8)
                   (mkArena (8 + Z.of_nat (List.length text) + 1) 8 st)) [].

(** A continuation that throws. *)
Definition boom (ref : Z) : Z -> M arena Z := fun _ => throw (EOther ref).

(** h, e-acute, l, l, o *)
Definition hello : jsstring := [0x68; 0xE9; 0x6C; 0x6C; 0x6F].

(** U+1F600 (a surrogate pair), the euro sign, e-acute, a *)
Definition mixed : jsstring := [0xD83D; 0xDE00; 0x20AC; 0xE9; 0x61].

(** The store after [malloc] of [size] bytes in a blank memory of 32. *)
Definition allotted (size : Z) : Store arena :=
  snd (bump_malloc size (store (blank 32))).

(** The message of a failed statement. *)
Definition no_such_table : jsstring := lit "no such table".

End Sample.

(* ===================================================================== *)
(** ** Conventions of the foreign side and of host strings *)
(* ===================================================================== *)

Module Text.

Import JS Wasm.

(** Modelled from the spec: the code of the module behind [str_len] is
    not among the sources; the spec describes the export as the byte
    length of the NUL-terminated string at a pointer, terminator
    excluded.  A handle with that [str_len]: C's [strlen] over the linear
    memory. *)
Definition c_strings {F : Type} (wasm : Handle F) : Prop :=
  forall ptr s,
    str_len wasm ptr s = Sample.strlen_from (skipn (Z.to_nat ptr) (buffer s)).

(** A host string with every unpaired surrogate replaced by U+FFFD
    ([String.prototype.toWellFormed]). *)
Fixpoint toWellFormed (s : jsstring) : jsstring :=
  match s with
  | [] => []
  | c :: rest =>
      if Utf8.is_high_surrogate c then
        match rest with
        | d :: rest' =>
            if Utf8.is_low_surrogate d
            then c :: d :: toWellFormed rest'
            else 0xFFFD :: toWellFormed rest
        | [] => [0xFFFD]
        end
      else if Utf8.is_low_surrogate c then 0xFFFD :: toWellFormed rest
      else c :: toWellFormed rest
  end.

(** Code units of a host string: 16-bit values. *)
Definition units (s : jsstring) : Prop := Forall (fun u => 0 <= u <= 0xFFFF) s.

(** A host string without U+0000. *)
Definition no_nul (s : jsstring) : Prop := Forall (fun u => u <> 0) s.

End Text.

(* ===================================================================== *)
(** * Properties *)
(* ===================================================================== *)

Import JS Wasm Layer Props.

(** ** Writing through a view *)

Section Overwrite.

Variables (off : nat) (buf : list Z).
Hypothesis off_le : (off <= List.length buf)%nat.

Lemma overwrite_length src :
  (off + List.length src <= List.length buf)%nat ->
  List.length (overwrite off src buf) = List.length buf.
Proof.
  intros H. unfold overwrite.
  rewrite !length_app, length_firstn, length_skipn. lia.
Qed.

Lemma overwrite_snoc src x :
  (off + List.length src + 1 <= List.length buf)%nat ->
  overwrite (off + List.length src) [x] (overwrite off src buf)
  = overwrite off (src ++ [x]) buf.
Proof.
  intros H. unfold overwrite.
  assert (Hf : List.length (firstn off buf) = off)
    by (rewrite length_firstn; lia).
  rewrite (app_assoc (firstn off buf) src).
  rewrite firstn_app.
  rewrite length_app, Hf, Nat.sub_diag. cbn [firstn].
  rewrite app_nil_r, firstn_all2 by (rewrite length_app; lia).
  rewrite skipn_app, length_app, Hf.
  rewrite skipn_all2 by (rewrite length_app; lia).
  replace (off + List.length src + List.length [x]
           - (off + List.length src))%nat with 1%nat by (cbn; lia).
  rewrite skipn_skipn, length_app. cbn [List.length app].
  rewrite <- !app_assoc. cbn [app].
  do 4 f_equal. lia.
Qed.

Lemma overwrite_window src tail :
  firstn (List.length src) (skipn off (overwrite off (src ++ tail) buf)) = src.
Proof.
  unfold overwrite.
  assert (Hf : List.length (firstn off buf) = off)
    by (rewrite length_firstn; lia).
  rewrite skipn_app, Hf, Nat.sub_diag, skipn_all2 by lia.
  cbn [skipn app]. rewrite <- app_assoc.
  rewrite firstn_app, Nat.sub_diag, firstn_all. cbn [firstn].
  apply app_nil_r.
Qed.

Lemma overwrite_before src :
  firstn off (overwrite off src buf) = firstn off buf.
Proof.
  unfold overwrite.
  assert (Hf : List.length (firstn off buf) = off)
    by (rewrite length_firstn; lia).
  rewrite firstn_app, Hf, Nat.sub_diag. cbn [firstn].
  rewrite app_nil_r. apply firstn_all2. lia.
Qed.

Lemma overwrite_after src :
  skipn (off + List.length src) (overwrite off src buf)
  = skipn (off + List.length src) buf.
Proof.
  unfold overwrite.
  assert (Hf : List.length (firstn off buf) = off)
    by (rewrite length_firstn; lia).
  rewrite app_assoc, skipn_app, length_app, Hf, Nat.sub_diag.
  rewrite skipn_all2 by (rewrite length_app; lia).
  reflexivity.
Qed.

End Overwrite.

(** ** The "move in" operations, step by step *)

Lemma fits_spec byteOffset len (buf : list Z) :
  fits byteOffset len buf = true
  <-> 0 <= byteOffset /\ 0 <= len /\ byteOffset + len <= Z.of_nat (List.length buf).
Proof.
  unfold fits. rewrite !andb_true_iff, !Z.leb_le. tauto.
Qed.

Section MoveIn.

Context {F T : Type}.
Variable Status_Unknown : Z.
Variable wasm : Handle F.
Variable closure : Z -> M F T.

(** The tail shared by [setStr] and [setArr]: the [try]/[catch] around
    the continuation frees the pointer once, whichever way it ends. *)
Lemma guarded_call ptr (w : World F) :
  try_catch
    (bind (call_closure closure ptr)
          (fun result => bind (call_free wasm ptr) (fun _ => ret result)))
    (fun error => bind (call_free wasm ptr) (fun _ => throw error)) w
  = released wasm ptr (closure ptr (record (EvCall ptr) w)).
Proof.
  unfold try_catch, bind, call_closure, released.
  destruct (closure ptr (record (EvCall ptr) w)) as [[a | e] w']; reflexivity.
Qed.

Lemma setStr_run str (w : World F) ptr s :
  malloc wasm (request (Str str)) (store w) = (ptr, s) ->
  ptr <> 0 ->
  setStr Status_Unknown wasm str closure w
  = released wasm ptr (closure ptr (entered (Str str) ptr s (log w))).
Proof.
  intros Hm Hp.
  assert (Hf := malloc_fits wasm _ _ _ _ (Nat2Z.is_nonneg _) Hm Hp).
  apply fits_spec in Hf.
  unfold request, image in *. rewrite length_app in *. cbn [List.length] in *.
  set (bytes := Utf8.TextEncoder_encode str) in *.
  replace (Z.of_nat (List.length bytes + 1))
    with (Z.of_nat (List.length bytes) + 1) in * by lia.
  unfold setStr. fold bytes.
  unfold bind at 1. unfold call_malloc. rewrite Hm.
  destruct (Z.eqb_spec ptr 0) as [? | _]; [contradiction |].
  unfold bind at 1. unfold new_Uint8Array. cbn [store buffer].
  rewrite (proj2 (fits_spec _ _ _)) by lia.
  unfold bind at 1. unfold view_set. cbn [length byteOffset].
  destruct (Z.leb_spec (Z.of_nat (List.length bytes))
                       (Z.of_nat (List.length bytes) + 1)); [| lia].
  unfold bind at 1. unfold view_store. cbn [length byteOffset].
  destruct (Z.leb_spec 0 (Z.of_nat (List.length bytes))); [| lia].
  destruct (Z.ltb_spec (Z.of_nat (List.length bytes))
                       (Z.of_nat (List.length bytes) + 1)); [| lia].
  cbn [andb]. rewrite guarded_call. f_equal. f_equal.
  unfold record, poke, entered, request, image. fold bytes. cbn [store log buffer private].
  rewrite <- app_assoc. cbn [app]. f_equal.
  - f_equal.
    replace (Z.to_nat (ptr + Z.of_nat (List.length bytes)))
      with (Z.to_nat ptr + List.length bytes)%nat by lia.
    change (0 mod 256) with 0.
    apply overwrite_snoc; lia.
  - rewrite length_app. cbn [List.length].
    do 3 f_equal. lia.
Qed.

Lemma setArr_run arr (w : World F) ptr s :
  malloc wasm (request (Arr arr)) (store w) = (ptr, s) ->
  ptr <> 0 ->
  setArr Status_Unknown wasm arr closure w
  = released wasm ptr (closure ptr (entered (Arr arr) ptr s (log w))).
Proof.
  intros Hm Hp.
  assert (Hf := malloc_fits wasm _ _ _ _ (Nat2Z.is_nonneg _) Hm Hp).
  unfold request, image in *.
  unfold setArr.
  unfold bind at 1. unfold call_malloc. rewrite Hm.
  destruct (Z.eqb_spec ptr 0) as [? | _]; [contradiction |].
  unfold bind at 1. unfold new_Uint8Array. cbn [store buffer].
  rewrite Hf.
  unfold bind at 1. unfold view_set. cbn [length byteOffset].
  rewrite Z.leb_refl.
  rewrite guarded_call. f_equal. f_equal.
  unfold record, poke, entered, request, image. cbn [store log buffer private].
  rewrite <- app_assoc. reflexivity.
Qed.

Lemma move_in_run p (w : World F) ptr s :
  malloc wasm (request p) (store w) = (ptr, s) ->
  ptr <> 0 ->
  move_in Status_Unknown wasm p closure w
  = released wasm ptr (closure ptr (entered p ptr s (log w))).
Proof.
  destruct p; [apply setStr_run | apply setArr_run].
Qed.

(** Allocation failure: the error is thrown right after [malloc]. *)
Lemma move_in_oom p (w : World F) s :
  malloc wasm (request p) (store w) = (0, s) ->
  move_in Status_Unknown wasm p closure w
  = (Throw (ESqlite (mkSqliteError (lit "Out of memory.") Status_Unknown)),
     mkWorld s (log w ++ [EvMalloc (request p) 0])).
Proof.
  intros Hm. destruct p; unfold move_in, setStr, setArr, request, image in *.
  - rewrite length_app in Hm. cbn [List.length] in Hm.
    replace (Z.of_nat (List.length (Utf8.TextEncoder_encode str) + 1))
      with (Z.of_nat (List.length (Utf8.TextEncoder_encode str)) + 1) in Hm by lia.
    unfold bind at 1. unfold call_malloc. rewrite Hm. cbn [Z.eqb].
    rewrite length_app. cbn [List.length].
    replace (Z.of_nat (List.length (Utf8.TextEncoder_encode str) + 1))
      with (Z.of_nat (List.length (Utf8.TextEncoder_encode str)) + 1) by lia.
    reflexivity.
  - unfold bind at 1. unfold call_malloc. rewrite Hm. reflexivity.
Qed.

End MoveIn.

(** ** Counting calls in a log *)

Lemma frees_app ptr l1 l2 :
  frees ptr (l1 ++ l2) = (frees ptr l1 + frees ptr l2)%nat.
Proof.
  induction l1 as [| [sz q | q | q] l1 IH]; cbn; auto.
  destruct (q =? ptr); cbn; auto.
Qed.

Lemma calls_app l1 l2 : calls (l1 ++ l2) = (calls l1 + calls l2)%nat.
Proof.
  induction l1 as [| [sz q | q | q] l1 IH]; cbn; auto.
Qed.

Lemma frees_one ptr : frees ptr [EvFree ptr] = 1%nat.
Proof. cbn. now rewrite Z.eqb_refl. Qed.

(** ** Release, failure and pass-through *)

Section Protocol.

Context {F T : Type}.
Variable Status_Unknown : Z.
Variable wasm : Handle F.
Variable closure : Z -> M F T.

(** C1. When the allocation of [setStr] or [setArr] succeeds, [free] is
    called on the pointer exactly once, after the continuation has
    finished and before the operation hands control back, whether the
    continuation returned or threw: the log of the operation is the log
    the continuation left, followed by the single event [EvFree ptr];
    nothing is freed before the continuation starts; and when the
    continuation itself added the events [evs], the operation as a whole
    added [EvMalloc; EvCall], [evs] and [EvFree ptr], that is one [free]
    of the pointer beyond those of the continuation. *)
Theorem move_in_frees_exactly_once p (w : World F) ptr s o w_out :
  malloc wasm (request p) (store w) = (ptr, s) ->
  ptr <> 0 ->
  closure ptr (entered p ptr s (log w)) = (o, w_out) ->
  move_in Status_Unknown wasm p closure w
  = (o, mkWorld (free wasm ptr (store w_out)) (log w_out ++ [EvFree ptr]))
  /\ frees ptr (log w_out ++ [EvFree ptr]) = S (frees ptr (log w_out))
  /\ frees ptr (log (entered p ptr s (log w))) = frees ptr (log w)
  /\ forall evs,
       log w_out = log (entered p ptr s (log w)) ++ evs ->
       log w_out ++ [EvFree ptr]
       = log w ++ [EvMalloc (request p) ptr; EvCall ptr] ++ evs ++ [EvFree ptr]
       /\ frees ptr (log w_out ++ [EvFree ptr])
          = (frees ptr (log w) + frees ptr evs + 1)%nat.
Proof.
  intros Hm Hp Hc.
  rewrite (move_in_run _ _ _ _ _ _ _ Hm Hp), Hc. cbn [released].
  split; [reflexivity |].
  split; [rewrite frees_app, frees_one; lia |].
  split; [cbn [entered log]; rewrite frees_app; cbn; lia |].
  intros evs He. rewrite He. cbn [entered log].
  split.
  - now rewrite <- !app_assoc.
  - rewrite !frees_app, frees_one. cbn. lia.
Qed.

(** C2. When [malloc] returns 0, [setStr] and [setArr] throw a
    [SqliteError] with message "Out of memory." and code
    [Status.Unknown]; the store is the one [malloc] left and the only
    event added to the log is that [malloc]: the continuation is not
    invoked and nothing is freed. *)
Theorem move_in_out_of_memory p (w : World F) s :
  malloc wasm (request p) (store w) = (0, s) ->
  move_in Status_Unknown wasm p closure w
  = (Throw (ESqlite (mkSqliteError (lit "Out of memory.") Status_Unknown)),
     mkWorld s (log w ++ [EvMalloc (request p) 0]))
  /\ calls (log w ++ [EvMalloc (request p) 0]) = calls (log w)
  /\ forall q, frees q (log w ++ [EvMalloc (request p) 0]) = frees q (log w).
Proof.
  intros Hm. split; [now apply move_in_oom |].
  split; [rewrite calls_app | intros q; rewrite frees_app]; cbn; lia.
Qed.

(** C3. After a successful allocation, what the continuation does is
    what [setStr] and [setArr] do: a value it throws is thrown again as
    it is, a value it returns is returned as it is, in both cases in the
    world the continuation left with the pointer freed. *)
Theorem move_in_passes_outcome p (w : World F) ptr s :
  malloc wasm (request p) (store w) = (ptr, s) ->
  ptr <> 0 ->
  (forall error w_out,
      closure ptr (entered p ptr s (log w)) = (Throw error, w_out) ->
      move_in Status_Unknown wasm p closure w
      = (Throw error,
         mkWorld (free wasm ptr (store w_out)) (log w_out ++ [EvFree ptr])))
  /\ (forall result w_out,
      closure ptr (entered p ptr s (log w)) = (Return result, w_out) ->
      move_in Status_Unknown wasm p closure w
      = (Return result,
         mkWorld (free wasm ptr (store w_out)) (log w_out ++ [EvFree ptr]))).
Proof.
  intros Hm Hp.
  split; intros x w_out Hc;
    rewrite (move_in_run _ _ _ _ _ _ _ Hm Hp), Hc; reflexivity.
Qed.

(** The memory in which the continuation of [setStr] starts. *)
Lemma setStr_entry str (w : World F) ptr s :
  malloc wasm (Z.of_nat (List.length (Utf8.TextEncoder_encode str)) + 1) (store w)
  = (ptr, s) ->
  ptr <> 0 ->
  let n := Z.of_nat (List.length (Utf8.TextEncoder_encode str)) in
  let w_in := entered (Str str) ptr s (log w) in
  setStr Status_Unknown wasm str closure w = released wasm ptr (closure ptr w_in)
  /\ log w_in = log w ++ [EvMalloc (n + 1) ptr; EvCall ptr]
  /\ window ptr (n + 1) (buffer (store w_in)) = Utf8.TextEncoder_encode str ++ [0]
  /\ List.length (buffer (store w_in)) = List.length (buffer s)
  /\ firstn (Z.to_nat ptr) (buffer (store w_in)) = firstn (Z.to_nat ptr) (buffer s)
  /\ skipn (Z.to_nat (ptr + n + 1)) (buffer (store w_in))
     = skipn (Z.to_nat (ptr + n + 1)) (buffer s).
Proof.
  intros Hm Hp n w_in.
  assert (Hr : request (Str str) = n + 1).
  { unfold request, image, n. rewrite length_app. cbn [List.length]. lia. }
  fold n in Hm. rewrite <- Hr in Hm.
  assert (Hf := malloc_fits wasm _ _ _ _ (Nat2Z.is_nonneg _) Hm Hp).
  apply fits_spec in Hf. unfold request in Hr.
  assert (Hl : List.length (image (Str str)) = Z.to_nat (n + 1)) by lia.
  split; [now apply setStr_run |].
  split; [unfold w_in; cbn [entered log]; unfold request; now rewrite Hr |].
  unfold w_in. cbn [entered store buffer]. unfold window.
  split.
  { rewrite <- Hl. rewrite <- (app_nil_r (image (Str str))) at 2.
    apply overwrite_window. lia. }
  split; [apply overwrite_length; lia |].
  split; [apply overwrite_before; lia |].
  replace (Z.to_nat (ptr + n + 1))
    with (Z.to_nat ptr + List.length (image (Str str)))%nat by lia.
  apply overwrite_after. lia.
Qed.

(** C7. [setArr] follows the protocol of [setStr] without encoding and
    without terminator: it asks [malloc] for exactly the length of the
    array, the continuation starts in a memory whose window of that size
    at the returned pointer holds exactly the bytes of the array, the
    rest of the memory being as [malloc] left it, and the pointer is
    freed when the continuation has finished. *)
Theorem setArr_writes_bytes arr (w : World F) ptr s :
  malloc wasm (Z.of_nat (List.length arr)) (store w) = (ptr, s) ->
  ptr <> 0 ->
  let n := Z.of_nat (List.length arr) in
  let w_in := entered (Arr arr) ptr s (log w) in
  setArr Status_Unknown wasm arr closure w = released wasm ptr (closure ptr w_in)
  /\ log w_in = log w ++ [EvMalloc n ptr; EvCall ptr]
  /\ window ptr n (buffer (store w_in)) = arr
  /\ List.length (buffer (store w_in)) = List.length (buffer s)
  /\ firstn (Z.to_nat ptr) (buffer (store w_in)) = firstn (Z.to_nat ptr) (buffer s)
  /\ skipn (Z.to_nat (ptr + n)) (buffer (store w_in))
     = skipn (Z.to_nat (ptr + n)) (buffer s).
Proof.
  intros Hm Hp n w_in.
  assert (Hf := malloc_fits wasm _ _ _ _ (Nat2Z.is_nonneg _) Hm Hp).
  apply fits_spec in Hf.
  split; [now apply setArr_run |].
  split; [reflexivity |].
  unfold w_in. cbn [entered store buffer image]. unfold window, n.
  split.
  { rewrite Nat2Z.id. rewrite <- (app_nil_r arr) at 2.
    apply overwrite_window. lia. }
  split; [apply overwrite_length; lia |].
  split; [apply overwrite_before; lia |].
  replace (Z.to_nat (ptr + Z.of_nat (List.length arr)))
    with (Z.to_nat ptr + List.length arr)%nat by lia.
  apply overwrite_after. lia.
Qed.

End Protocol.

(** ** Bitwise operators on small non-negative numbers *)

(** Linear arithmetic with quotients and remainders by constants. *)
Ltac dlia := Z.div_mod_to_equations; lia.

Lemma ToInt32_small x : 0 <= x < 2 ^ 31 -> ToInt32 x = x.
Proof.
  intros H. unfold ToInt32.
  rewrite Z.mod_small; lia.
Qed.

Lemma ToUint16_small x : 0 <= x < 2 ^ 16 -> ToUint16 x = x.
Proof. intros H. unfold ToUint16. apply Z.mod_small. lia. Qed.

Lemma land_mul_pow2_low a b k :
  0 <= k -> 0 <= b < 2 ^ k -> Z.land (a * 2 ^ k) b = 0.
Proof.
  intros Hk Hb.
  rewrite <- (Z.mod_small b (2 ^ k)) by lia.
  rewrite <- Z.land_ones by lia.
  rewrite (Z.land_comm b), Z.land_assoc, Z.land_ones by lia.
  rewrite Z.mod_mul by lia.
  apply Z.land_0_l.
Qed.

Lemma lor_mul_pow2_add a b k :
  0 <= k -> 0 <= b < 2 ^ k -> Z.lor (a * 2 ^ k) b = a * 2 ^ k + b.
Proof.
  intros Hk Hb.
  pose proof (Z.add_lor_land (a * 2 ^ k) b) as H.
  rewrite land_mul_pow2_low in H by lia. lia.
Qed.

Lemma band_ones b k :
  0 <= b < 2 ^ 31 -> 0 <= k <= 30 -> band b (Z.ones k) = b mod 2 ^ k.
Proof.
  intros Hb Hk. unfold band.
  assert (Hp : 0 < 2 ^ k <= 2 ^ 30).
  { split; [apply Z.pow_pos_nonneg; lia | apply Z.pow_le_mono_r; lia]. }
  assert (Ho : Z.ones k = 2 ^ k - 1) by (rewrite Z.ones_equiv; lia).
  rewrite (ToInt32_small b) by lia.
  rewrite (ToInt32_small (Z.ones k)) by lia.
  rewrite Z.land_ones by lia.
  apply ToInt32_small.
  pose proof (Z.mod_pos_bound b (2 ^ k)). lia.
Qed.

Lemma shl_small x k :
  0 <= x -> 0 <= k < 32 -> x * 2 ^ k < 2 ^ 31 -> shl x k = x * 2 ^ k.
Proof.
  intros Hx Hk Hb. unfold shl.
  assert (0 < 2 ^ k) by (apply Z.pow_pos_nonneg; lia).
  rewrite (ToInt32_small x) by nia.
  rewrite (Z.mod_small k 32) by lia.
  rewrite Z.shiftl_mul_pow2 by lia.
  apply ToInt32_small. nia.
Qed.

Lemma bor_add a b k :
  0 <= a -> 0 <= k -> 0 <= b < 2 ^ k -> a * 2 ^ k + b < 2 ^ 31 ->
  bor (a * 2 ^ k) b = a * 2 ^ k + b.
Proof.
  intros Ha Hk Hb Hs. unfold bor.
  assert (0 < 2 ^ k) by (apply Z.pow_pos_nonneg; lia).
  rewrite (ToInt32_small (a * 2 ^ k)) by nia.
  rewrite (ToInt32_small b) by nia.
  rewrite lor_mul_pow2_add by lia.
  apply ToInt32_small. nia.
Qed.

Lemma sar_small x k :
  0 <= x < 2 ^ 31 -> 0 <= k < 32 -> sar x k = x / 2 ^ k.
Proof.
  intros Hx Hk. unfold sar.
  rewrite ToInt32_small, (Z.mod_small k 32), Z.shiftr_div_pow2; lia.
Qed.

(** Checking a property of bytes by running through the 256 of them. *)
Lemma byte_enum (p : Z -> bool) :
  forallb p (map Z.of_nat (seq 0 256)) = true ->
  forall b, 0 <= b < 256 -> p b = true.
Proof.
  intros H b Hb. rewrite forallb_forall in H. apply H.
  rewrite in_map_iff. exists (Z.to_nat b). split; [lia |].
  apply in_seq. lia.
Qed.

Lemma lead_test_1 b :
  0 <= b < 256 -> (band b 0x80 =? 0) = (b <=? 0x7F).
Proof.
  intros Hb.
  apply (fun H => proj1 (Bool.eqb_true_iff _ _)
           (byte_enum (fun b => Bool.eqb (band b 0x80 =? 0) (b <=? 0x7F)) H b Hb)).
  vm_compute. reflexivity.
Qed.

Lemma lead_test_2 b :
  0 <= b < 256 -> (band b 0xE0 =? 0xC0) = Utf8.in_range 0xC0 0xDF b.
Proof.
  intros Hb.
  apply (fun H => proj1 (Bool.eqb_true_iff _ _)
           (byte_enum (fun b => Bool.eqb (band b 0xE0 =? 0xC0)
                                         (Utf8.in_range 0xC0 0xDF b)) H b Hb)).
  vm_compute. reflexivity.
Qed.

Lemma lead_test_3 b :
  0 <= b < 256 -> (band b 0xF0 =? 0xE0) = Utf8.in_range 0xE0 0xEF b.
Proof.
  intros Hb.
  apply (fun H => proj1 (Bool.eqb_true_iff _ _)
           (byte_enum (fun b => Bool.eqb (band b 0xF0 =? 0xE0)
                                         (Utf8.in_range 0xE0 0xEF b)) H b Hb)).
  vm_compute. reflexivity.
Qed.

Lemma in_range_spec lo hi b : Utf8.in_range lo hi b = true <-> lo <= b <= hi.
Proof. unfold Utf8.in_range. rewrite andb_true_iff, !Z.leb_le. tauto. Qed.

Lemma in_range_true lo hi b : lo <= b <= hi -> Utf8.in_range lo hi b = true.
Proof. apply in_range_spec. Qed.

Lemma in_range_false lo hi b : b < lo \/ hi < b -> Utf8.in_range lo hi b = false.
Proof.
  intros H. destruct (Utf8.in_range lo hi b) eqn:E; [| reflexivity].
  apply in_range_spec in E. lia.
Qed.

(** The masks of the loop, as arithmetic. *)
Lemma band_63 b : 0 <= b < 2 ^ 31 -> band b 63 = b mod 64.
Proof. intros. apply (band_ones b 6); lia. Qed.

Lemma band_31 b : 0 <= b < 2 ^ 31 -> band b 31 = b mod 32.
Proof. intros. apply (band_ones b 5); lia. Qed.

Lemma band_15 b : 0 <= b < 2 ^ 31 -> band b 15 = b mod 16.
Proof. intros. apply (band_ones b 4); lia. Qed.

Lemma band_7 b : 0 <= b < 2 ^ 31 -> band b 7 = b mod 8.
Proof. intros. apply (band_ones b 3); lia. Qed.

Lemma band_1023 b : 0 <= b < 2 ^ 31 -> band b 0x3FF = b mod 1024.
Proof. intros. apply (band_ones b 10); lia. Qed.

(** The code point computed by each branch of the loop. *)
Lemma loop_value_2 b0 b1 :
  0xC0 <= b0 <= 0xDF -> 0x80 <= b1 <= 0xBF ->
  bor (shl (band b0 31) 6) (band b1 63) = (b0 - 0xC0) * 64 + (b1 - 0x80).
Proof.
  intros H0 H1.
  rewrite band_31, band_63 by dlia.
  replace (b0 mod 32) with (b0 - 0xC0) by dlia.
  replace (b1 mod 64) with (b1 - 0x80) by dlia.
  rewrite shl_small by lia.
  apply (bor_add _ _ 6); lia.
Qed.

Lemma loop_value_3 b0 b1 b2 :
  0xE0 <= b0 <= 0xEF -> 0x80 <= b1 <= 0xBF -> 0x80 <= b2 <= 0xBF ->
  bor (bor (shl (band b0 15) 12) (shl (band b1 63) 6)) (band b2 63)
  = (b0 - 0xE0) * 4096 + (b1 - 0x80) * 64 + (b2 - 0x80).
Proof.
  intros H0 H1 H2.
  rewrite band_15, !band_63 by dlia.
  replace (b0 mod 16) with (b0 - 0xE0) by dlia.
  replace (b1 mod 64) with (b1 - 0x80) by dlia.
  replace (b2 mod 64) with (b2 - 0x80) by dlia.
  rewrite !shl_small by lia.
  rewrite (bor_add _ _ 12) by lia.
  replace ((b0 - 224) * 2 ^ 12 + (b1 - 128) * 2 ^ 6)
    with (((b0 - 224) * 64 + (b1 - 128)) * 2 ^ 6) by lia.
  rewrite (bor_add _ _ 6) by lia.
  lia.
Qed.

Lemma loop_value_4 b0 b1 b2 b3 :
  0xF0 <= b0 <= 0xF7 -> 0x80 <= b1 <= 0xBF -> 0x80 <= b2 <= 0xBF ->
  0x80 <= b3 <= 0xBF ->
  bor (bor (bor (shl (band b0 7) 18) (shl (band b1 63) 12)) (shl (band b2 63) 6))
      (band b3 63)
  = (b0 - 0xF0) * 262144 + (b1 - 0x80) * 4096 + (b2 - 0x80) * 64 + (b3 - 0x80).
Proof.
  intros H0 H1 H2 H3.
  rewrite band_7, !band_63 by dlia.
  replace (b0 mod 8) with (b0 - 0xF0) by dlia.
  replace (b1 mod 64) with (b1 - 0x80) by dlia.
  replace (b2 mod 64) with (b2 - 0x80) by dlia.
  replace (b3 mod 64) with (b3 - 0x80) by dlia.
  rewrite !shl_small by lia.
  rewrite (bor_add _ _ 18) by lia.
  replace ((b0 - 240) * 2 ^ 18 + (b1 - 128) * 2 ^ 12)
    with (((b0 - 240) * 64 + (b1 - 128)) * 2 ^ 12) by lia.
  rewrite (bor_add _ _ 12) by lia.
  replace (((b0 - 240) * 64 + (b1 - 128)) * 2 ^ 12 + (b2 - 128) * 2 ^ 6)
    with ((((b0 - 240) * 64 + (b1 - 128)) * 64 + (b2 - 128)) * 2 ^ 6) by lia.
  rewrite (bor_add _ _ 6) by lia.
  lia.
Qed.

(** The surrogate pair built by the loop is the UTF-16 form of the code
    point. *)
Lemma loop_surrogates c :
  0x10000 <= c < 0x110000 ->
  fromCharCode [bor 0xD800 (sar (c - 0x10000) 10);
                bor 0xDC00 (band (c - 0x10000) 0x3FF)]
  = Utf8.utf16_cp c.
Proof.
  intros Hc. unfold Utf8.utf16_cp.
  destruct (Z.ltb_spec c 0x10000); [lia |].
  rewrite sar_small, band_1023 by lia.
  change 1024 with (2 ^ 10).
  rewrite Z.shiftr_div_pow2 by lia.
  change 0x3FF with (Z.ones 10). rewrite Z.land_ones by lia.
  change 0xD800 with (54 * 2 ^ 10). change 0xDC00 with (55 * 2 ^ 10).
  assert (0 <= (c - 65536) / 2 ^ 10 < 2 ^ 10) by dlia.
  assert (0 <= (c - 65536) mod 2 ^ 10 < 2 ^ 10) by dlia.
  rewrite !(bor_add _ _ 10) by lia.
  cbn [fromCharCode map].
  rewrite !ToUint16_small by lia.
  reflexivity.
Qed.

(** ** The short-string loop of [getStr] *)

Lemma skipn_cons_inv (l : list Z) i x r :
  skipn i l = x :: r -> element l i = Some x /\ skipn (S i) l = r.
Proof.
  intros H. split.
  - unfold element. rewrite <- hd_error_skipn, H. reflexivity.
  - change (S i) with (1 + i)%nat. rewrite <- skipn_skipn, H. reflexivity.
Qed.

(** The loop comes to an end: an iteration advances [idx], so a fuel of
    [len - idx] is never used up. *)
Lemma decode_loop_total fuel : forall bytes len idx str reads,
  (len - idx <= fuel)%nat ->
  exists r, decode_loop fuel bytes len idx str reads = Some r.
Proof.
  induction fuel as [| fuel IH]; intros bytes len idx str reads Hf.
  - cbn [decode_loop]. destruct (Nat.ltb_spec idx len); [lia | eauto].
  - cbn [decode_loop]. destruct (Nat.ltb_spec idx len); [| eauto].
    repeat match goal with
           | |- context [if ?c then _ else _] => destruct c
           end;
      apply IH; lia.
Qed.

Lemma decode_short_total bytes len :
  exists r, decode_short bytes len = Some r.
Proof. apply decode_loop_total. lia. Qed.

Section Loop.

Variables (bytes : list Z) (len : nat).

Lemma loop_exit fuel idx str reads :
  (len <= idx)%nat ->
  decode_loop fuel bytes len idx str reads = Some (str, reads).
Proof.
  intros H. destruct fuel; cbn [decode_loop];
    destruct (Nat.ltb_spec idx len); (lia || reflexivity).
Qed.

Lemma loop_step_1 fuel idx str reads b0 r :
  (idx < len)%nat ->
  skipn idx bytes = b0 :: r ->
  0 <= b0 <= 0x7F ->
  decode_loop (S fuel) bytes len idx str reads
  = decode_loop fuel bytes len (S idx) (str ++ [b0]) (reads ++ [idx]).
Proof.
  intros Hi Hs H0.
  destruct (skipn_cons_inv _ _ _ _ Hs) as [E0 _].
  cbn [decode_loop]. destruct (Nat.ltb_spec idx len); [| lia].
  rewrite E0. cbn [num].
  rewrite lead_test_1 by lia.
  destruct (Z.leb_spec b0 0x7F); [| lia].
  cbn [fromCharCode map]. rewrite ToUint16_small by lia.
  reflexivity.
Qed.

Lemma loop_step_2 fuel idx str reads b0 b1 r :
  (idx < len)%nat ->
  skipn idx bytes = b0 :: b1 :: r ->
  0xC2 <= b0 <= 0xDF -> 0x80 <= b1 <= 0xBF ->
  decode_loop (S fuel) bytes len idx str reads
  = decode_loop fuel bytes len (S (S idx))
      (str ++ [(b0 - 0xC0) * 64 + (b1 - 0x80)]) (reads ++ [idx; S idx]).
Proof.
  intros Hi Hs H0 H1.
  destruct (skipn_cons_inv _ _ _ _ Hs) as [E0 Hs1].
  destruct (skipn_cons_inv _ _ _ _ Hs1) as [E1 _].
  cbn [decode_loop]. destruct (Nat.ltb_spec idx len); [| lia].
  rewrite E0, E1. cbn [num].
  rewrite lead_test_1 by lia.
  destruct (Z.leb_spec b0 0x7F); [lia |].
  rewrite lead_test_2, in_range_true by lia.
  rewrite loop_value_2 by lia.
  cbn [fromCharCode map]. rewrite ToUint16_small by lia.
  rewrite <- app_assoc. reflexivity.
Qed.

Lemma loop_step_3 fuel idx str reads b0 b1 b2 r :
  (idx < len)%nat ->
  skipn idx bytes = b0 :: b1 :: b2 :: r ->
  0xE0 <= b0 <= 0xEF -> 0x80 <= b1 <= 0xBF -> 0x80 <= b2 <= 0xBF ->
  decode_loop (S fuel) bytes len idx str reads
  = decode_loop fuel bytes len (S (S (S idx)))
      (str ++ [(b0 - 0xE0) * 4096 + (b1 - 0x80) * 64 + (b2 - 0x80)])
      (reads ++ [idx; S idx; S (S idx)]).
Proof.
  intros Hi Hs H0 H1 H2.
  destruct (skipn_cons_inv _ _ _ _ Hs) as [E0 Hs1].
  destruct (skipn_cons_inv _ _ _ _ Hs1) as [E1 Hs2].
  destruct (skipn_cons_inv _ _ _ _ Hs2) as [E2 _].
  cbn [decode_loop]. destruct (Nat.ltb_spec idx len); [| lia].
  rewrite E0, E1, E2. cbn [num].
  rewrite lead_test_1 by lia.
  destruct (Z.leb_spec b0 0x7F); [lia |].
  rewrite lead_test_2, in_range_false by lia.
  rewrite lead_test_3, in_range_true by lia.
  rewrite loop_value_3 by lia.
  destruct (Z.ltb_spec ((b0 - 0xE0) * 4096 + (b1 - 0x80) * 64 + (b2 - 0x80))
                       0x10000); [| lia].
  cbn [fromCharCode map]. rewrite ToUint16_small by lia.
  rewrite <- !app_assoc. reflexivity.
Qed.

Lemma loop_step_4 fuel idx str reads b0 b1 b2 b3 r :
  (idx < len)%nat ->
  skipn idx bytes = b0 :: b1 :: b2 :: b3 :: r ->
  0xF0 <= b0 <= 0xF4 -> 0x80 <= b1 <= 0xBF ->
  (b0 = 0xF0 -> 0x90 <= b1) -> (b0 = 0xF4 -> b1 <= 0x8F) ->
  0x80 <= b2 <= 0xBF -> 0x80 <= b3 <= 0xBF ->
  decode_loop (S fuel) bytes len idx str reads
  = decode_loop fuel bytes len (S (S (S (S idx))))
      (str ++ Utf8.utf16_cp ((b0 - 0xF0) * 262144 + (b1 - 0x80) * 4096
                             + (b2 - 0x80) * 64 + (b3 - 0x80)))
      (reads ++ [idx; S idx; S (S idx); S (S (S idx))]).
Proof.
  intros Hi Hs H0 H1 Hlo Hhi H2 H3.
  destruct (skipn_cons_inv _ _ _ _ Hs) as [E0 Hs1].
  destruct (skipn_cons_inv _ _ _ _ Hs1) as [E1 Hs2].
  destruct (skipn_cons_inv _ _ _ _ Hs2) as [E2 Hs3].
  destruct (skipn_cons_inv _ _ _ _ Hs3) as [E3 _].
  cbn [decode_loop]. destruct (Nat.ltb_spec idx len); [| lia].
  rewrite E0, E1, E2, E3. cbn [num].
  rewrite lead_test_1 by lia.
  destruct (Z.leb_spec b0 0x7F); [lia |].
  rewrite lead_test_2, in_range_false by lia.
  rewrite lead_test_3, in_range_false by lia.
  rewrite loop_value_4 by lia.
  destruct (Z.ltb_spec ((b0 - 0xF0) * 262144 + (b1 - 0x80) * 4096
                        + (b2 - 0x80) * 64 + (b3 - 0x80)) 0x10000); [lia |].
  rewrite loop_surrogates by lia.
  rewrite <- !app_assoc. reflexivity.
Qed.

(** On well-formed UTF-8 the loop produces the UTF-16 form of the code
    points and reads each index from [idx] up to the end once, in
    order. *)
Lemma decode_loop_wf suf cps :
  wf_utf8 suf cps ->
  forall fuel idx str reads,
    skipn idx bytes = suf ->
    len = (idx + List.length suf)%nat ->
    (List.length suf <= fuel)%nat ->
    decode_loop fuel bytes len idx str reads
    = Some (str ++ Utf8.utf16 cps, reads ++ seq idx (List.length suf)).
Proof.
  induction 1 as [| b0 r cps H0 Hw IH
                  | b0 b1 r cps H0 H1 Hw IH
                  | b0 b1 b2 r cps H0 H1 Hlo Hhi H2 Hw IH
                  | b0 b1 b2 b3 r cps H0 H1 Hlo Hhi H2 H3 Hw IH];
    intros fuel idx str reads Hs Hl Hf; cbn [List.length] in *.
  - rewrite loop_exit by lia. cbn. now rewrite !app_nil_r.
  - destruct fuel as [| fuel]; [lia |].
    rewrite (loop_step_1 fuel idx str reads b0 r) by (assumption || lia).
    destruct (skipn_cons_inv _ _ _ _ Hs) as [_ Hs1].
    rewrite (IH fuel (S idx)) by (assumption || lia).
    cbn [Utf8.utf16 flat_map seq]. unfold Utf8.utf16_cp.
    destruct (Z.ltb_spec b0 0x10000); [| lia].
    rewrite <- !app_assoc. reflexivity.
  - destruct fuel as [| fuel]; [lia |].
    rewrite (loop_step_2 fuel idx str reads b0 b1 r) by (assumption || lia).
    destruct (skipn_cons_inv _ _ _ _ Hs) as [_ Hs1].
    destruct (skipn_cons_inv _ _ _ _ Hs1) as [_ Hs2].
    rewrite (IH fuel (S (S idx))) by (assumption || lia).
    cbn [Utf8.utf16 flat_map seq]. unfold Utf8.utf16_cp.
    destruct (Z.ltb_spec ((b0 - 0xC0) * 64 + (b1 - 0x80)) 0x10000); [| lia].
    rewrite <- !app_assoc. reflexivity.
  - destruct fuel as [| fuel]; [lia |].
    rewrite (loop_step_3 fuel idx str reads b0 b1 b2 r) by (assumption || lia).
    destruct (skipn_cons_inv _ _ _ _ Hs) as [_ Hs1].
    destruct (skipn_cons_inv _ _ _ _ Hs1) as [_ Hs2].
    destruct (skipn_cons_inv _ _ _ _ Hs2) as [_ Hs3].
    rewrite (IH fuel (S (S (S idx)))) by (assumption || lia).
    cbn [Utf8.utf16 flat_map seq]. unfold Utf8.utf16_cp.
    destruct (Z.ltb_spec ((b0 - 0xE0) * 4096 + (b1 - 0x80) * 64 + (b2 - 0x80))
                         0x10000); [| lia].
    rewrite <- !app_assoc. reflexivity.
  - destruct fuel as [| fuel]; [lia |].
    rewrite (loop_step_4 fuel idx str reads b0 b1 b2 b3 r) by (assumption || lia).
    destruct (skipn_cons_inv _ _ _ _ Hs) as [_ Hs1].
    destruct (skipn_cons_inv _ _ _ _ Hs1) as [_ Hs2].
    destruct (skipn_cons_inv _ _ _ _ Hs2) as [_ Hs3].
    destruct (skipn_cons_inv _ _ _ _ Hs3) as [_ Hs4].
    rewrite (IH fuel (S (S (S (S idx))))) by (assumption || lia).
    cbn [Utf8.utf16 flat_map seq].
    rewrite <- !app_assoc. reflexivity.
Qed.

End Loop.

Lemma decode_short_wf bytes cps :
  wf_utf8 bytes cps ->
  decode_short bytes (List.length bytes)
  = Some (Utf8.utf16 cps, seq 0 (List.length bytes)).
Proof.
  intros Hw. unfold decode_short.
  now rewrite (decode_loop_wf bytes (List.length bytes) bytes cps Hw).
Qed.

(** ** Well-formed UTF-8, the encoder and the streaming decoder *)

Lemma parse_wf_bounded n : forall bytes cps,
  (List.length bytes <= n)%nat ->
  Utf8.parse bytes = Some cps -> wf_utf8 bytes cps.
Proof.
  induction n as [| n IH]; intros bytes cps Hn Hp.
  - destruct bytes; [| cbn in Hn; lia].
    cbn in Hp. injection Hp as <-. constructor.
  - destruct bytes as [| b0 r0]; [cbn in Hp; injection Hp as <-; constructor |].
    cbn [Utf8.parse] in Hp. cbn [List.length] in Hn.
    destruct (Utf8.in_range 0 127 b0) eqn:E1.
    { destruct (Utf8.parse r0) as [cps0 |] eqn:Er; [| discriminate].
      cbn in Hp. injection Hp as <-.
      apply in_range_spec in E1. constructor; [lia | apply IH; [lia | assumption]]. }
    destruct r0 as [| b1 r1]; [discriminate |]. cbn [List.length] in Hn.
    destruct (Utf8.in_range 194 223 b0) eqn:E2.
    { destruct (Utf8.in_range 128 191 b1) eqn:C1; [| discriminate].
      destruct (Utf8.parse r1) as [cps1 |] eqn:Er; [| discriminate].
      cbn in Hp. injection Hp as <-.
      apply in_range_spec in E2, C1.
      constructor; [lia | lia | apply IH; [lia | assumption]]. }
    destruct r1 as [| b2 r2]; [discriminate |]. cbn [List.length] in Hn.
    destruct (Utf8.in_range 224 239 b0) eqn:E3.
    { destruct (Utf8.in_range (if b0 =? 224 then 160 else 128)
                              (if b0 =? 237 then 159 else 191) b1) eqn:C1;
        [| discriminate].
      destruct (Utf8.in_range 128 191 b2) eqn:C2; [| discriminate].
      destruct (Utf8.parse r2) as [cps2 |] eqn:Er; [| discriminate].
      cbn in Hp. injection Hp as <-.
      apply in_range_spec in E3, C1, C2.
      destruct (Z.eqb_spec b0 224), (Z.eqb_spec b0 237);
        constructor; try lia; apply IH; (lia || assumption). }
    destruct r2 as [| b3 r3]; [discriminate |]. cbn [List.length] in Hn.
    destruct (Utf8.in_range 240 244 b0) eqn:E4; [| discriminate].
    destruct (Utf8.in_range (if b0 =? 240 then 144 else 128)
                            (if b0 =? 244 then 143 else 191) b1) eqn:C1;
      [| discriminate].
    destruct (Utf8.in_range 128 191 b2) eqn:C2; [| discriminate].
    destruct (Utf8.in_range 128 191 b3) eqn:C3; [| discriminate].
    destruct (Utf8.parse r3) as [cps3 |] eqn:Er; [| discriminate].
    cbn in Hp. injection Hp as <-.
    apply in_range_spec in E4, C1, C2, C3.
    destruct (Z.eqb_spec b0 240), (Z.eqb_spec b0 244);
      constructor; try lia; apply IH; (lia || assumption).
Qed.

Lemma parse_wf bytes cps : Utf8.parse bytes = Some cps -> wf_utf8 bytes cps.
Proof. apply (parse_wf_bounded (List.length bytes)). lia. Qed.

Lemma valid_wf bytes :
  Utf8.valid bytes = true -> exists cps, wf_utf8 bytes cps.
Proof.
  unfold Utf8.valid. destruct (Utf8.parse bytes) as [cps |] eqn:E; [| discriminate].
  intros _. exists cps. now apply parse_wf.
Qed.

(** Conversely the parser accepts whatever [wf_utf8] relates, so the two
    descriptions of well-formed UTF-8 coincide. *)
Lemma wf_parse bytes cps : wf_utf8 bytes cps -> Utf8.parse bytes = Some cps.
Proof.
  induction 1 as [| b0 r cps H0 Hw IH
                  | b0 b1 r cps H0 H1 Hw IH
                  | b0 b1 b2 r cps H0 H1 Hlo Hhi H2 Hw IH
                  | b0 b1 b2 b3 r cps H0 H1 Hlo Hhi H2 H3 Hw IH];
    cbn [Utf8.parse].
  - reflexivity.
  - now rewrite in_range_true, IH by lia.
  - rewrite in_range_false, in_range_true, in_range_true, IH by lia.
    reflexivity.
  - rewrite in_range_false, in_range_false, in_range_true by lia.
    rewrite in_range_true
      by (destruct (Z.eqb_spec b0 224), (Z.eqb_spec b0 237); lia).
    rewrite in_range_true, IH by lia. reflexivity.
  - rewrite in_range_false, in_range_false, in_range_false, in_range_true by lia.
    rewrite in_range_true
      by (destruct (Z.eqb_spec b0 240), (Z.eqb_spec b0 244); lia).
    rewrite in_range_true, in_range_true, IH by lia. reflexivity.
Qed.

(** Constructors of [wf_utf8] with the code point named. *)
Lemma wf_two_at b0 b1 r c cps :
  0xC2 <= b0 <= 0xDF -> 0x80 <= b1 <= 0xBF ->
  c = (b0 - 0xC0) * 64 + (b1 - 0x80) ->
  wf_utf8 r cps -> wf_utf8 (b0 :: b1 :: r) (c :: cps).
Proof. intros; subst; now constructor. Qed.

Lemma wf_three_at b0 b1 b2 r c cps :
  0xE0 <= b0 <= 0xEF -> 0x80 <= b1 <= 0xBF ->
  (b0 = 0xE0 -> 0xA0 <= b1) -> (b0 = 0xED -> b1 <= 0x9F) ->
  0x80 <= b2 <= 0xBF ->
  c = (b0 - 0xE0) * 4096 + (b1 - 0x80) * 64 + (b2 - 0x80) ->
  wf_utf8 r cps -> wf_utf8 (b0 :: b1 :: b2 :: r) (c :: cps).
Proof. intros; subst; now constructor. Qed.

Lemma wf_four_at b0 b1 b2 b3 r c cps :
  0xF0 <= b0 <= 0xF4 -> 0x80 <= b1 <= 0xBF ->
  (b0 = 0xF0 -> 0x90 <= b1) -> (b0 = 0xF4 -> b1 <= 0x8F) ->
  0x80 <= b2 <= 0xBF -> 0x80 <= b3 <= 0xBF ->
  c = (b0 - 0xF0) * 262144 + (b1 - 0x80) * 4096 + (b2 - 0x80) * 64 + (b3 - 0x80) ->
  wf_utf8 r cps -> wf_utf8 (b0 :: b1 :: b2 :: b3 :: r) (c :: cps).
Proof. intros; subst; now constructor. Qed.

Lemma continuation_byte x : Z.lor 0x80 (Z.land x 0x3F) = 128 + x mod 64.
Proof.
  change 0x3F with (Z.ones 6). rewrite Z.land_ones by lia.
  change 0x80 with (2 * 2 ^ 6).
  rewrite lor_mul_pow2_add; [reflexivity | lia |].
  apply Z.mod_pos_bound. lia.
Qed.

(** The encoder produces well-formed UTF-8 denoting the code point. *)
Lemma encode_cp_wf c r cps :
  Utf8.scalar c -> wf_utf8 r cps -> wf_utf8 (Utf8.encode_cp c ++ r) (c :: cps).
Proof.
  intros Hc Hw. unfold Utf8.scalar in Hc. unfold Utf8.encode_cp.
  destruct (Z.leb_spec c 0x7F).
  { cbn [app]. constructor; [lia | assumption]. }
  destruct (Z.leb_spec c 0x7FF).
  { rewrite !continuation_byte, !Z.shiftr_div_pow2 by lia. cbn [app].
    apply wf_two_at; try assumption; dlia. }
  destruct (Z.leb_spec c 0xFFFF).
  { rewrite !continuation_byte, !Z.shiftr_div_pow2 by lia. cbn [app].
    apply wf_three_at; try assumption; dlia. }
  rewrite !continuation_byte, !Z.shiftr_div_pow2 by lia. cbn [app].
  apply wf_four_at; try assumption; dlia.
Qed.

Lemma encode_cps_wf cps :
  Forall Utf8.scalar cps -> wf_utf8 (Utf8.encode_cps cps) cps.
Proof.
  induction 1 as [| c cps Hc _ IH]; cbn [Utf8.encode_cps flat_map].
  - constructor.
  - now apply encode_cp_wf.
Qed.

(** The streaming decoder on a lead byte and on a continuation byte. *)
Lemma land_low b k lo :
  0 <= k -> lo mod 2 ^ k = 0 -> lo <= b < lo + 2 ^ k ->
  Z.land b (Z.ones k) = b - lo.
Proof.
  intros Hk Hlo Hb. rewrite Z.land_ones by lia.
  assert (0 < 2 ^ k) by (apply Z.pow_pos_nonneg; lia).
  symmetry. apply (Z.mod_unique_pos _ _ (lo / 2 ^ k)); [lia |].
  pose proof (Z.div_mod lo (2 ^ k)). lia.
Qed.

Lemma decoder_lead_1 b :
  0 <= b <= 0x7F -> Utf8.decoder_lead b = (Utf8.decoder_init, [b]).
Proof.
  intros H. unfold Utf8.decoder_lead. now rewrite in_range_true by lia.
Qed.

Lemma decoder_lead_2 b :
  0xC2 <= b <= 0xDF ->
  Utf8.decoder_lead b = (Utf8.mkDecoder (b - 0xC0) 0 1 0x80 0xBF, []).
Proof.
  intros H. unfold Utf8.decoder_lead.
  rewrite in_range_false, in_range_true by lia.
  change 0x1F with (Z.ones 5). rewrite (land_low b 5 0xC0) by (cbn; lia).
  reflexivity.
Qed.

Lemma decoder_lead_3 b :
  0xE0 <= b <= 0xEF ->
  Utf8.decoder_lead b
  = (Utf8.mkDecoder (b - 0xE0) 0 2
       (if b =? 0xE0 then 0xA0 else 0x80) (if b =? 0xED then 0x9F else 0xBF), []).
Proof.
  intros H. unfold Utf8.decoder_lead.
  rewrite in_range_false, in_range_false, in_range_true by lia.
  change 0xF with (Z.ones 4). rewrite (land_low b 4 0xE0) by (cbn; lia).
  reflexivity.
Qed.

Lemma decoder_lead_4 b :
  0xF0 <= b <= 0xF4 ->
  Utf8.decoder_lead b
  = (Utf8.mkDecoder (b - 0xF0) 0 3
       (if b =? 0xF0 then 0x90 else 0x80) (if b =? 0xF4 then 0x8F else 0xBF), []).
Proof.
  intros H. unfold Utf8.decoder_lead.
  rewrite in_range_false, in_range_false, in_range_false, in_range_true by lia.
  change 0x7 with (Z.ones 3). rewrite (land_low b 3 0xF0) by (cbn; lia).
  reflexivity.
Qed.

Lemma decoder_step_cont cp seen needed lo hi b :
  needed <> 0 -> lo <= b <= hi -> 0x80 <= b <= 0xBF ->
  Utf8.decoder_step (Utf8.mkDecoder cp seen needed lo hi) b
  = if seen + 1 =? needed
    then (Utf8.decoder_init, [cp * 64 + (b - 0x80)])
    else (Utf8.mkDecoder (cp * 64 + (b - 0x80)) (seen + 1) needed 0x80 0xBF, []).
Proof.
  intros Hn Hr Hb. unfold Utf8.decoder_step.
  cbn [Utf8.bytes_needed Utf8.lower_boundary Utf8.upper_boundary
       Utf8.code_point Utf8.bytes_seen].
  destruct (Z.eqb_spec needed 0); [contradiction |].
  rewrite in_range_true by lia. cbn [negb].
  change 0x3F with (Z.ones 6). rewrite (land_low b 6 0x80) by (cbn; lia).
  rewrite Z.shiftl_mul_pow2 by lia.
  rewrite lor_mul_pow2_add by lia.
  reflexivity.
Qed.

Lemma decoder_run_wf bytes cps :
  wf_utf8 bytes cps -> Utf8.decoder_run Utf8.decoder_init bytes = cps.
Proof.
  induction 1 as [| b0 r cps H0 Hw IH
                  | b0 b1 r cps H0 H1 Hw IH
                  | b0 b1 b2 r cps H0 H1 Hlo Hhi H2 Hw IH
                  | b0 b1 b2 b3 r cps H0 H1 Hlo Hhi H2 H3 Hw IH].
  - reflexivity.
  - cbn [Utf8.decoder_run]. unfold Utf8.decoder_step at 1.
    cbn [Utf8.bytes_needed Utf8.decoder_init Z.eqb].
    rewrite decoder_lead_1, IH by lia. reflexivity.
  - cbn [Utf8.decoder_run]. unfold Utf8.decoder_step at 1.
    cbn [Utf8.bytes_needed Utf8.decoder_init Z.eqb].
    rewrite decoder_lead_2 by lia.
    rewrite decoder_step_cont by lia. cbn [Z.add Z.eqb Pos.eqb].
    rewrite IH. reflexivity.
  - cbn [Utf8.decoder_run]. unfold Utf8.decoder_step at 1.
    cbn [Utf8.bytes_needed Utf8.decoder_init Z.eqb].
    rewrite decoder_lead_3 by lia.
    rewrite decoder_step_cont
      by (try lia; destruct (Z.eqb_spec b0 224), (Z.eqb_spec b0 237); lia).
    cbn [Z.add Z.eqb Pos.eqb Pos.add].
    rewrite decoder_step_cont by lia. cbn [Z.add Z.eqb Pos.eqb Pos.add].
    rewrite IH. cbn [app]. f_equal. lia.
  - cbn [Utf8.decoder_run]. unfold Utf8.decoder_step at 1.
    cbn [Utf8.bytes_needed Utf8.decoder_init Z.eqb].
    rewrite decoder_lead_4 by lia.
    rewrite decoder_step_cont
      by (try lia; destruct (Z.eqb_spec b0 240), (Z.eqb_spec b0 244); lia).
    cbn [Z.add Z.eqb Pos.eqb Pos.add].
    rewrite decoder_step_cont by lia. cbn [Z.add Z.eqb Pos.eqb Pos.add].
    rewrite decoder_step_cont by lia. cbn [Z.add Z.eqb Pos.eqb Pos.add Pos.succ].
    rewrite IH. cbn [app]. f_equal. lia.
Qed.

(** ** Host strings and scalar values *)

Lemma to_scalars_bounded n : forall s,
  (List.length s <= n)%nat ->
  Utf8.well_formed s = true ->
  Forall Utf8.scalar (Utf8.to_scalars s)
  /\ Utf8.utf16 (Utf8.to_scalars s) = s
  /\ (leading_bom s = false ->
      match Utf8.to_scalars s with c :: _ => c <> 0xFEFF | [] => True end).
Proof.
  induction n as [| n IH]; intros s Hn Hw.
  { destruct s; [| cbn in Hn; lia]. cbn. auto. }
  destruct s as [| c rest]; [cbn; auto |].
  cbn [Utf8.well_formed Utf8.to_scalars] in *. cbn [List.length] in Hn.
  destruct (Utf8.is_high_surrogate c) eqn:Eh.
  - destruct rest as [| d rest']; [discriminate |].
    apply andb_true_iff in Hw. destruct Hw as [El Hw].
    rewrite El. cbn [List.length] in Hn.
    destruct (IH rest' ltac:(lia) Hw) as (Hs & Hu & _).
    unfold Utf8.is_high_surrogate, Utf8.is_low_surrogate in *.
    apply in_range_spec in Eh, El.
    split; [| split].
    + constructor; [unfold Utf8.scalar; lia | assumption].
    + cbn [Utf8.utf16 flat_map]. fold (Utf8.utf16 (Utf8.to_scalars rest')).
      rewrite Hu. unfold Utf8.utf16_cp.
      destruct (Z.ltb_spec (65536 + (c - 55296) * 1024 + (d - 56320)) 65536);
        [lia |].
      rewrite Z.shiftr_div_pow2 by lia.
      change 1023 with (Z.ones 10). rewrite Z.land_ones by lia.
      cbn [app]. f_equal; [dlia | f_equal; dlia].
    + intros _. lia.
  - apply andb_true_iff in Hw. destruct Hw as [Hw Hr].
    apply andb_true_iff in Hw. destruct Hw as [Ec En].
    apply negb_true_iff in En. rewrite En.
    destruct (IH rest ltac:(lia) Hr) as (Hs & Hu & _).
    unfold Utf8.is_high_surrogate, Utf8.is_low_surrogate in *.
    apply in_range_spec in Ec.
    assert (Hsc : Utf8.scalar c).
    { unfold Utf8.scalar.
      destruct (Z.le_gt_cases 0xD800 c); [| lia].
      destruct (Z.le_gt_cases c 0xDBFF);
        [rewrite in_range_true in Eh by lia; discriminate |].
      destruct (Z.le_gt_cases 0xDC00 c); [| lia].
      destruct (Z.le_gt_cases c 0xDFFF);
        [rewrite in_range_true in En by lia; discriminate | lia]. }
    split; [| split].
    + now constructor.
    + cbn [Utf8.utf16 flat_map]. fold (Utf8.utf16 (Utf8.to_scalars rest)).
      rewrite Hu. unfold Utf8.utf16_cp.
      destruct (Z.ltb_spec c 65536); [reflexivity | lia].
    + cbn [leading_bom]. intros Hb. now apply Z.eqb_neq.
Qed.

Lemma to_scalars_well_formed s :
  Utf8.well_formed s = true ->
  Forall Utf8.scalar (Utf8.to_scalars s)
  /\ Utf8.utf16 (Utf8.to_scalars s) = s
  /\ (leading_bom s = false ->
      match Utf8.to_scalars s with c :: _ => c <> 0xFEFF | [] => True end).
Proof. apply (to_scalars_bounded (List.length s)). lia. Qed.

Lemma TextEncoder_wf s :
  Utf8.well_formed s = true ->
  wf_utf8 (Utf8.TextEncoder_encode s) (Utf8.to_scalars s).
Proof.
  intros H. apply encode_cps_wf. now apply to_scalars_well_formed.
Qed.

Lemma TextEncoder_valid s :
  Utf8.well_formed s = true -> Utf8.valid (Utf8.TextEncoder_encode s) = true.
Proof.
  intros H. unfold Utf8.valid. now rewrite (wf_parse _ _ (TextEncoder_wf s H)).
Qed.

(** ** The byte order mark *)

Lemma strip_bom_other b0 r : b0 <> 0xEF -> Utf8.strip_bom (b0 :: r) = b0 :: r.
Proof.
  intros H. destruct r as [| b1 [| b2 r]]; try reflexivity.
  cbn [Utf8.strip_bom]. destruct (Z.eqb_spec b0 0xEF); [contradiction | reflexivity].
Qed.

Lemma encode_without_bom cps :
  Forall Utf8.scalar cps ->
  match cps with c :: _ => c <> 0xFEFF | [] => True end ->
  Utf8.strip_bom (Utf8.encode_cps cps) = Utf8.encode_cps cps.
Proof.
  intros Hs Hb. destruct cps as [| c cps]; [reflexivity |].
  cbn [Utf8.encode_cps flat_map]. fold (Utf8.encode_cps cps).
  inversion Hs as [| ? ? Hc _]; subst. unfold Utf8.scalar in Hc.
  unfold Utf8.encode_cp.
  destruct (Z.leb_spec c 0x7F).
  { cbn [app]. apply strip_bom_other. lia. }
  destruct (Z.leb_spec c 0x7FF).
  { rewrite !continuation_byte, !Z.shiftr_div_pow2 by lia. cbn [app].
    apply strip_bom_other. dlia. }
  destruct (Z.leb_spec c 0xFFFF).
  { rewrite !continuation_byte, !Z.shiftr_div_pow2 by lia. cbn [app Utf8.strip_bom].
    destruct (Z.eqb_spec (c / 2 ^ 12 + 224) 239); [| reflexivity].
    destruct (Z.eqb_spec (128 + (c / 2 ^ 6) mod 64) 187); [| reflexivity].
    destruct (Z.eqb_spec (128 + c mod 64) 191); [| reflexivity].
    exfalso. apply Hb. dlia. }
  rewrite !continuation_byte, !Z.shiftr_div_pow2 by lia. cbn [app].
  apply strip_bom_other. dlia.
Qed.

(** ** The two paths of [getStr] on well-formed UTF-8 *)

Lemma decoders_agree bytes cps :
  wf_utf8 bytes cps ->
  Utf8.strip_bom bytes = bytes ->
  decode_short bytes (List.length bytes)
  = Some (Utf8.TextDecoder_decode bytes, seq 0 (List.length bytes)).
Proof.
  intros Hw Hb. unfold Utf8.TextDecoder_decode.
  rewrite Hb, (decoder_run_wf _ _ Hw). now apply decode_short_wf.
Qed.

(** With a byte order mark in front, the loop keeps it and the bulk
    decoder drops it. *)
Lemma decoders_on_bom bytes cps :
  wf_utf8 bytes cps ->
  decode_short (0xEF :: 0xBB :: 0xBF :: bytes) (3 + List.length bytes)
  = Some (0xFEFF :: Utf8.utf16 cps, seq 0 (3 + List.length bytes))
  /\ Utf8.TextDecoder_decode (0xEF :: 0xBB :: 0xBF :: bytes) = Utf8.utf16 cps.
Proof.
  intros Hw. split.
  - assert (Hb : wf_utf8 (0xEF :: 0xBB :: 0xBF :: bytes) (0xFEFF :: cps)).
    { apply wf_three_at; (assumption || lia). }
    apply (decode_short_wf _ _ Hb).
  - unfold Utf8.TextDecoder_decode. cbn [Utf8.strip_bom Z.eqb Pos.eqb andb].
    now rewrite (decoder_run_wf _ _ Hw).
Qed.

(** ** [getStr] and the [SqliteError] constructor, step by step *)

Section Reading.

Context {F : Type}.
Variable wasm : Handle F.

Lemma getStr_run ptr (w : World F) :
  fits ptr (str_len wasm ptr (store w)) (buffer (store w)) = true ->
  getStr wasm ptr w
  = (Return (decoded (str_len wasm ptr (store w))
               (window ptr (str_len wasm ptr (store w)) (buffer (store w)))),
     w).
Proof.
  intros Hf. unfold getStr, decoded, window.
  unfold bind at 1. unfold call_str_len.
  unfold bind at 1. unfold new_Uint8Array. rewrite Hf.
  unfold bind at 1. unfold view_contents. cbn [length byteOffset].
  destruct (str_len wasm ptr (store w) >? 16); [reflexivity |].
  destruct (decode_short _ _) as [[str reads] |]; reflexivity.
Qed.

Lemma getStr_misfit ptr (w : World F) :
  fits ptr (str_len wasm ptr (store w)) (buffer (store w)) = false ->
  getStr wasm ptr w = (Throw ERange, w).
Proof.
  intros Hf. unfold getStr.
  unfold bind at 1. unfold call_str_len.
  unfold bind at 1. unfold new_Uint8Array. now rewrite Hf.
Qed.

(** [getStr] leaves the world as it found it. *)
Lemma getStr_reads_only ptr (w : World F) : snd (getStr wasm ptr w) = w.
Proof.
  destruct (fits ptr (str_len wasm ptr (store w)) (buffer (store w))) eqn:Hf.
  - now rewrite getStr_run.
  - now rewrite getStr_misfit.
Qed.

Lemma new_SqliteError_run Status_Unknown code (w : World F) :
  new_SqliteError Status_Unknown (inl wasm) code w
  = match getStr wasm (get_sqlite_error_str wasm (store w)) w with
    | (Return text, _) =>
        (Return (mkSqliteError text
                   (match code with
                    | Some c => c
                    | None => get_status wasm (store w)
                    end)), w)
    | (Throw e, _) => (Throw e, w)
    end.
Proof.
  unfold new_SqliteError.
  unfold bind at 1. unfold call_get_sqlite_error_str.
  unfold bind at 1.
  pose proof (getStr_reads_only (get_sqlite_error_str wasm (store w)) w) as Hw.
  destruct (getStr wasm (get_sqlite_error_str wasm (store w)) w) as [[text | e] w'];
    cbn [snd] in Hw; subst w'; reflexivity.
Qed.

End Reading.

(** ** Round trip, decoding paths, reads *)

Section RoundTrip.

Context {F : Type}.
Variable Status_Unknown : Z.
Variable wasm : Handle F.

(** C5 (amended). For every string without unpaired surrogates whose
    UTF-8 encoding takes at most 16 bytes or which does not begin with
    U+FEFF: writing it with [setStr] and reading it back with [getStr]
    at the same pointer, [str_len] reporting the length of the encoding,
    yields the string itself (and the pointer is then freed). *)
Theorem setStr_getStr_round_trip str (w : World F) ptr s :
  Utf8.well_formed str = true ->
  Z.of_nat (List.length (Utf8.TextEncoder_encode str)) <= 16
  \/ leading_bom str = false ->
  malloc wasm (Z.of_nat (List.length (Utf8.TextEncoder_encode str)) + 1) (store w)
  = (ptr, s) ->
  ptr <> 0 ->
  str_len wasm ptr (store (entered (Str str) ptr s (log w)))
  = Z.of_nat (List.length (Utf8.TextEncoder_encode str)) ->
  setStr Status_Unknown wasm str (getStr wasm) w
  = (Return str,
     mkWorld (free wasm ptr (store (entered (Str str) ptr s (log w))))
             (log (entered (Str str) ptr s (log w)) ++ [EvFree ptr])).
Proof.
  intros Hwf Hbom Hm Hp Hlen.
  set (bytes := Utf8.TextEncoder_encode str) in *.
  set (n := Z.of_nat (List.length bytes)) in *.
  assert (Hr : request (Str str) = n + 1).
  { unfold request, image, n. fold bytes. rewrite length_app. cbn [List.length]. lia. }
  rewrite <- Hr in Hm.
  assert (Hf := malloc_fits wasm _ _ _ _ (Nat2Z.is_nonneg _) Hm Hp).
  apply fits_spec in Hf. unfold request in Hr.
  rewrite (setStr_run _ _ _ _ _ _ _ Hm Hp).
  set (w_in := entered (Str str) ptr s (log w)) in *.
  assert (Hbuf : List.length (buffer (store w_in)) = List.length (buffer s)).
  { unfold w_in. cbn [entered store buffer]. apply overwrite_length; lia. }
  assert (Hwin : window ptr n (buffer (store w_in)) = bytes).
  { unfold w_in, window, n. cbn [entered store buffer image]. fold bytes.
    rewrite Nat2Z.id. apply overwrite_window. lia. }
  rewrite getStr_run by (rewrite Hlen; apply fits_spec; lia).
  rewrite Hlen, Hwin. cbn [released]. do 2 f_equal.
  pose proof (TextEncoder_wf str Hwf) as Hw. fold bytes in Hw.
  destruct (to_scalars_well_formed str Hwf) as (Hsc & Hu & Hnb).
  unfold decoded. destruct (Z.gtb_spec n 16) as [Hgt | Hle].
  - destruct Hbom as [Hbom | Hbom]; [lia |].
    unfold Utf8.TextDecoder_decode. unfold bytes at 1, Utf8.TextEncoder_encode.
    rewrite encode_without_bom by (assumption || exact (Hnb Hbom)).
    fold (Utf8.TextEncoder_encode str). fold bytes.
    rewrite (decoder_run_wf _ _ Hw). exact Hu.
  - unfold n. rewrite Nat2Z.id, (decode_short_wf _ _ Hw). assumption.
Qed.

End RoundTrip.

(** C6. On the four valid UTF-8 bytes EF BB BF 61 the two paths of
    [getStr] give different strings: the loop decodes the byte order
    mark to U+FEFF, the bulk decoder drops it.  Seen from [getStr]: the
    text U+FEFF followed by thirteen "a" (16 bytes) is read back whole,
    followed by fourteen "a" (17 bytes) it is read back without its
    first character. *)
Theorem getStr_paths_disagree_on_bom :
  Utf8.valid [0xEF; 0xBB; 0xBF; 0x61] = true
  /\ option_map fst (decode_short [0xEF; 0xBB; 0xBF; 0x61] 4) = Some [0xFEFF; 0x61]
  /\ Utf8.TextDecoder_decode [0xEF; 0xBB; 0xBF; 0x61] = [0x61]
  /\ fst (getStr Sample.bump 8
            (Sample.failed (Utf8.TextEncoder_encode (0xFEFF :: repeat 0x61 13)) 1))
     = Return (0xFEFF :: repeat 0x61 13)
  /\ fst (getStr Sample.bump 8
            (Sample.failed (Utf8.TextEncoder_encode (0xFEFF :: repeat 0x61 14)) 1))
     = Return (repeat 0x61 14).
Proof. repeat split; vm_compute; reflexivity. Qed.

(** C10. On a view of [len <= 16] bytes holding well-formed, complete
    UTF-8, the loop of [getStr] ends with a result and reads [bytes]
    exactly at the indices 0, 1, ..., [len - 1]: every read, including
    those after the increments inside the 2-, 3- and 4-byte branches, is
    below [len] and finds a byte. *)
Theorem short_loop_reads_within_view bytes len :
  (len <= 16)%nat ->
  List.length bytes = len ->
  Utf8.valid bytes = true ->
  exists str reads,
    decode_short bytes len = Some (str, reads)
    /\ reads = seq 0 len
    /\ Forall (fun idx => (idx < len)%nat /\ element bytes idx <> None) reads.
Proof.
  intros _ Hl Hv. destruct (valid_wf _ Hv) as [cps Hw]. subst len.
  exists (Utf8.utf16 cps), (seq 0 (List.length bytes)).
  split; [now apply decode_short_wf |]. split; [reflexivity |].
  apply Forall_forall. intros idx Hi. apply in_seq in Hi.
  split; [lia |]. unfold element. apply nth_error_Some. lia.
Qed.

(** ** The error object *)

Section Errors.

Context {F : Type}.
Variable Status_Unknown : Z.
Variable wasm : Handle F.

(** C8. Built from a module handle, a [SqliteError] has for message the
    string [getStr] reads at the pointer given by
    [get_sqlite_error_str], and for code the [code] argument or, in its
    absence, the result of [get_status]; both are values taken when the
    error is built: whatever runs afterwards, and whatever it does to
    the module, the fields read later are those values. *)
Theorem SqliteError_from_module_snapshot code (w : World F) text :
  getStr wasm (get_sqlite_error_str wasm (store w)) w = (Return text, w) ->
  new_SqliteError Status_Unknown (inl wasm) code w
  = (Return (mkSqliteError text
               (match code with Some c => c | None => get_status wasm (store w) end)),
     w)
  /\ forall (A : Type) (later : M F A) (a : A) (w' : World F),
       later w = (Return a, w') ->
       bind (new_SqliteError Status_Unknown (inl wasm) code)
            (fun e => bind later (fun _ => ret (message e, Wasm.code e))) w
       = (Return (text,
                  match code with Some c => c | None => get_status wasm (store w) end),
          w').
Proof.
  intros Hg.
  assert (Hn := new_SqliteError_run wasm Status_Unknown code w).
  rewrite Hg in Hn. split; [exact Hn |].
  intros A later a w' Hl.
  unfold bind at 1. rewrite Hn.
  unfold bind at 1. rewrite Hl. reflexivity.
Qed.

End Errors.

Lemma name_of_In (Status : Enum.enum) v n :
  Enum.name_of Status v = Some n -> In (n, v) Status.
Proof.
  induction Status as [| [n0 v0] rest IH]; cbn [Enum.name_of]; [discriminate |].
  destruct (Enum.name_of rest v) as [n' |].
  - intros H. right. now apply IH.
  - destruct (Z.eqb_spec v0 v); [| discriminate].
    intros H. injection H as <-. subst. now left.
Qed.

Lemma name_of_None (Status : Enum.enum) v n :
  Enum.name_of Status v = None -> ~ In (n, v) Status.
Proof.
  induction Status as [| [n0 v0] rest IH]; cbn [Enum.name_of]; [auto |].
  destruct (Enum.name_of rest v) as [n' |]; [discriminate |].
  destruct (Z.eqb_spec v0 v); [discriminate |].
  intros _ [Heq | Hin]; [congruence | now apply IH].
Qed.

Lemma name_of_found (Status : Enum.enum) v :
  (exists n, In (n, v) Status) ->
  exists n, Enum.name_of Status v = Some n /\ In (n, v) Status.
Proof.
  intros [n Hin]. destruct (Enum.name_of Status v) as [n' |] eqn:E.
  - exists n'. split; [reflexivity | now apply name_of_In].
  - now apply name_of_None with (n := n) in E.
Qed.

(** C9. For every value of the [Status] enumeration, [codeName] of an
    error with that code is the name of a member declared with that
    value, and it is not the empty string; in the enumeration of the
    spec, code 19 gives "SqliteConstraint". *)
Theorem codeName_of_defined_status (Status : Enum.enum) name v text :
  Enum.identifiers Status ->
  In (name, v) Status ->
  (exists n,
      codeName Status (mkSqliteError text v) = Some n
      /\ n <> EmptyString
      /\ In (n, v) Status)
  /\ forall unknown,
       codeName (Enum.Status_of_spec unknown) (mkSqliteError text 19)
       = Some "SqliteConstraint"%string.
Proof.
  intros Hid Hin. split.
  - destruct (name_of_found Status v (ex_intro _ name Hin)) as (n & Hn & Hm).
    exists n. unfold codeName. cbn [code]. split; [assumption |].
    split; [| assumption].
    unfold Enum.identifiers in Hid. rewrite Forall_forall in Hid.
    apply (Hid (n, v) Hm).
  - intros unknown. reflexivity.
Qed.

(** ** The properties at work on the sample instance *)

(** Closed facts about the sample instance, settled by evaluation. *)
Ltac evaluated :=
  repeat match goal with |- _ /\ _ => split end;
  first [reflexivity | discriminate | lia | vm_compute; discriminate
         | vm_compute; reflexivity].

Lemma move_in_frees_exactly_once_witness :
  (malloc Sample.bump (request (Str Sample.hello)) (store (Sample.blank 32))
   = (8, Sample.allotted 7)
   /\ 8 <> 0
   /\ Sample.boom 5 8 (entered (Str Sample.hello) 8 (Sample.allotted 7) [])
      = (Throw (EOther 5), entered (Str Sample.hello) 8 (Sample.allotted 7) []))
  /\ move_in (-1) Sample.bump (Str Sample.hello) (Sample.boom 5) (Sample.blank 32)
     = (Throw (EOther 5),
        mkWorld
          (free Sample.bump 8
             (store (entered (Str Sample.hello) 8 (Sample.allotted 7) [])))
          (log (entered (Str Sample.hello) 8 (Sample.allotted 7) []) ++ [EvFree 8])).
Proof.
  split; [evaluated |].
  apply (move_in_frees_exactly_once (-1) Sample.bump (Sample.boom 5)
           (Str Sample.hello) (Sample.blank 32) 8 (Sample.allotted 7)
           (Throw (EOther 5))
           (entered (Str Sample.hello) 8 (Sample.allotted 7) []));
    [reflexivity | discriminate | reflexivity].
Defined.

Lemma move_in_out_of_memory_witness :
  malloc Sample.bump (request (Str Sample.hello)) (store (Sample.blank 10))
  = (0, store (Sample.blank 10))
  /\ move_in (-1) Sample.bump (Str Sample.hello) (Sample.boom 5) (Sample.blank 10)
     = (Throw (ESqlite (mkSqliteError (lit "Out of memory.") (-1))),
        mkWorld (store (Sample.blank 10)) [EvMalloc 7 0]).
Proof.
  split; [reflexivity |].
  apply (move_in_out_of_memory (-1) Sample.bump (Sample.boom 5)
           (Str Sample.hello) (Sample.blank 10) (store (Sample.blank 10))).
  reflexivity.
Defined.

Lemma move_in_passes_outcome_witness :
  (malloc Sample.bump (request (Arr [1; 2; 3])) (store (Sample.blank 32))
   = (8, Sample.allotted 3)
   /\ 8 <> 0)
  /\ move_in (-1) Sample.bump (Arr [1; 2; 3]) (Sample.boom 5) (Sample.blank 32)
     = (Throw (EOther 5),
        mkWorld
          (free Sample.bump 8 (store (entered (Arr [1; 2; 3]) 8 (Sample.allotted 3) [])))
          (log (entered (Arr [1; 2; 3]) 8 (Sample.allotted 3) []) ++ [EvFree 8]))
  /\ move_in (-1) Sample.bump (Arr [1; 2; 3]) (fun ptr => ret (ptr + 1))
       (Sample.blank 32)
     = (Return 9,
        mkWorld
          (free Sample.bump 8 (store (entered (Arr [1; 2; 3]) 8 (Sample.allotted 3) [])))
          (log (entered (Arr [1; 2; 3]) 8 (Sample.allotted 3) []) ++ [EvFree 8])).
Proof.
  split; [evaluated |].
  split.
  - apply (proj1 (move_in_passes_outcome (-1) Sample.bump (Sample.boom 5)
                    (Arr [1; 2; 3]) (Sample.blank 32) 8 (Sample.allotted 3)
                    eq_refl ltac:(discriminate))).
    reflexivity.
  - apply (proj2 (move_in_passes_outcome (-1) Sample.bump (fun ptr => ret (ptr + 1))
                    (Arr [1; 2; 3]) (Sample.blank 32) 8 (Sample.allotted 3)
                    eq_refl ltac:(discriminate))).
    reflexivity.
Defined.

Lemma setStr_getStr_round_trip_witness :
  (Utf8.well_formed Sample.mixed = true
   /\ Z.of_nat (List.length (Utf8.TextEncoder_encode Sample.mixed)) <= 16
   /\ malloc Sample.bump
        (Z.of_nat (List.length (Utf8.TextEncoder_encode Sample.mixed)) + 1)
        (store (Sample.blank 32))
      = (8, Sample.allotted 11)
   /\ 8 <> 0
   /\ str_len Sample.bump 8
        (store (entered (Str Sample.mixed) 8 (Sample.allotted 11) []))
      = Z.of_nat (List.length (Utf8.TextEncoder_encode Sample.mixed)))
  /\ fst (setStr (-1) Sample.bump Sample.mixed (getStr Sample.bump) (Sample.blank 32))
     = Return Sample.mixed.
Proof.
  split.
  - evaluated.
  - rewrite (setStr_getStr_round_trip (-1) Sample.bump Sample.mixed
               (Sample.blank 32) 8 (Sample.allotted 11));
      [reflexivity | reflexivity | left; vm_compute; discriminate
       | reflexivity | discriminate | reflexivity].
Defined.

Lemma setArr_writes_bytes_witness :
  (malloc Sample.bump (Z.of_nat (List.length [1; 2; 3])) (store (Sample.blank 32))
   = (8, Sample.allotted 3)
   /\ 8 <> 0)
  /\ log (entered (Arr [1; 2; 3]) 8 (Sample.allotted 3) [])
     = [EvMalloc 3 8; EvCall 8]
  /\ window 8 3 (buffer (store (entered (Arr [1; 2; 3]) 8 (Sample.allotted 3) [])))
     = [1; 2; 3].
Proof.
  split; [evaluated |].
  pose proof (setArr_writes_bytes (-1) Sample.bump (Sample.boom 5)
                [1; 2; 3] (Sample.blank 32) 8 (Sample.allotted 3)
                eq_refl ltac:(discriminate)) as (_ & Hlog & Hwin & _).
  split; [exact Hlog | exact Hwin].
Defined.

Lemma SqliteError_from_module_snapshot_witness :
  getStr Sample.bump
    (get_sqlite_error_str Sample.bump (store (Sample.failed Sample.no_such_table 1)))
    (Sample.failed Sample.no_such_table 1)
  = (Return Sample.no_such_table, Sample.failed Sample.no_such_table 1)
  /\ new_SqliteError (-1) (inl Sample.bump) None (Sample.failed Sample.no_such_table 1)
     = (Return (mkSqliteError Sample.no_such_table 1),
        Sample.failed Sample.no_such_table 1)
  /\ bind (new_SqliteError (-1) (inl Sample.bump) None)
          (fun e => bind (fun _ => (Return tt, Sample.failed (lit "disk full") 13))
                         (fun _ => ret (message e, code e)))
          (Sample.failed Sample.no_such_table 1)
     = (Return (Sample.no_such_table, 1), Sample.failed (lit "disk full") 13).
Proof.
  split; [reflexivity |].
  split.
  - apply (proj1 (SqliteError_from_module_snapshot (-1) Sample.bump None
                    (Sample.failed Sample.no_such_table 1) Sample.no_such_table
                    eq_refl)).
  - apply (proj2 (SqliteError_from_module_snapshot (-1) Sample.bump None
                    (Sample.failed Sample.no_such_table 1) Sample.no_such_table
                    eq_refl) unit
             (fun _ => (Return tt, Sample.failed (lit "disk full") 13)) tt).
    reflexivity.
Defined.

Lemma codeName_of_defined_status_witness :
  (Enum.identifiers (Enum.Status_of_spec (-1))
   /\ In ("SqliteConstraint"%string, 19) (Enum.Status_of_spec (-1)))
  /\ exists n,
       codeName (Enum.Status_of_spec (-1)) (mkSqliteError Sample.no_such_table 19)
       = Some n
       /\ n <> EmptyString
       /\ In (n, 19) (Enum.Status_of_spec (-1)).
Proof.
  assert (Hid : Enum.identifiers (Enum.Status_of_spec (-1)))
    by (repeat constructor; discriminate).
  assert (Hin : In ("SqliteConstraint"%string, 19) (Enum.Status_of_spec (-1)))
    by (right; left; reflexivity).
  split; [split; assumption |].
  apply (proj1 (codeName_of_defined_status (Enum.Status_of_spec (-1))
                  "SqliteConstraint"%string 19 Sample.no_such_table Hid Hin)).
Defined.

Lemma short_loop_reads_within_view_witness :
  ((10 <= 16)%nat
   /\ List.length (Utf8.TextEncoder_encode Sample.mixed) = 10%nat
   /\ Utf8.valid (Utf8.TextEncoder_encode Sample.mixed) = true)
  /\ exists str reads,
       decode_short (Utf8.TextEncoder_encode Sample.mixed) 10 = Some (str, reads)
       /\ reads = seq 0 10
       /\ Forall (fun idx => (idx < 10)%nat
                  /\ element (Utf8.TextEncoder_encode Sample.mixed) idx <> None) reads.
Proof.
  split; [evaluated |].
  apply (short_loop_reads_within_view (Utf8.TextEncoder_encode Sample.mixed) 10);
    [lia | reflexivity | reflexivity].
Defined.

(** C5, as stated, fails on a string with an unpaired surrogate: the
    allocation succeeds, [str_len] reports the length of the encoding,
    and the string read back is U+FFFD, not the string written. *)
Lemma round_trip_fails_on_unpaired_surrogate :
  malloc Sample.bump
    (Z.of_nat (List.length (Utf8.TextEncoder_encode [0xD800])) + 1)
    (store (Sample.blank 32))
  = (8, Sample.allotted 4)
  /\ 8 <> 0
  /\ str_len Sample.bump 8 (store (entered (Str [0xD800]) 8 (Sample.allotted 4) []))
     = Z.of_nat (List.length (Utf8.TextEncoder_encode [0xD800]))
  /\ fst (setStr (-1) Sample.bump [0xD800] (getStr Sample.bump) (Sample.blank 32))
     = Return [0xFFFD]
  /\ fst (setStr (-1) Sample.bump [0xD800] (getStr Sample.bump) (Sample.blank 32))
     <> Return [0xD800].
Proof.
  evaluated.
Qed.

(* ===================================================================== *)
(** * Further properties *)
(* ===================================================================== *)

Import Text.

(** ** The loop of [getStr] on arbitrary bytes *)

Lemma seq_snoc idx : seq 0 idx ++ [idx] = seq 0 (S idx).
Proof. now rewrite seq_S. Qed.

(** Whatever the bytes, the loop ends, and the indices it has read are
    0, 1, ..., [k - 1] for some [k]: below [len] it goes on, and the
    iteration that crosses [len] goes at most three elements too far. *)
Lemma decode_loop_reads fuel : forall bytes len idx str,
  (len - idx <= fuel)%nat ->
  exists str' k,
    decode_loop fuel bytes len idx str (seq 0 idx) = Some (str', seq 0 k)
    /\ (idx <= k)%nat
    /\ ((idx < len)%nat -> (len <= k <= len + 3)%nat)
    /\ ((len <= idx)%nat -> k = idx).
Proof.
  induction fuel as [| fuel IH]; intros bytes len idx str Hf.
  - cbn [decode_loop]. destruct (Nat.ltb_spec idx len); [lia |].
    exists str, idx. repeat split; (reflexivity || lia).
  - cbn [decode_loop]. destruct (Nat.ltb_spec idx len) as [Hlt | Hge].
    2:{ exists str, idx. repeat split; (reflexivity || lia). }
    repeat match goal with
           | |- context [if ?c then _ else _] => destruct c
           end;
      cbv beta iota zeta; rewrite ?seq_snoc;
      match goal with
      | |- exists _ _, decode_loop _ _ _ ?i ?s _ = _ /\ _ =>
          destruct (IH bytes len i s ltac:(lia)) as (str' & k & He & Hk & Hin & Hout);
          exists str', k; split; [exact He |];
          destruct (Nat.lt_ge_cases i len);
          [specialize (Hin ltac:(assumption)) | specialize (Hout ltac:(assumption))];
          repeat split; lia
      end.
Qed.

(** X1. For every content of the view and every [len], the short-string
    loop of [getStr] comes to an end with a result, having read the view
    at consecutive indices from 0: none when [len] is 0, otherwise all
    indices below [len] and at most three beyond it. *)
Theorem short_loop_ends_near_the_view bytes len :
  exists str k,
    decode_short bytes len = Some (str, seq 0 k)
    /\ (len = 0%nat -> k = 0%nat)
    /\ ((0 < len)%nat -> (len <= k <= len + 3)%nat).
Proof.
  destruct (decode_loop_reads len bytes len 0 [] ltac:(lia))
    as (str & k & He & _ & Hin & Hout).
  exists str, k. split; [exact He |]. split; intros H.
  - apply Hout. lia.
  - apply Hin. lia.
Qed.

Section Prefix.

Variables (bytes : list Z) (len : nat).

(** The iterations that consume a well-formed prefix. *)
Lemma decode_loop_prefix pre cps :
  wf_utf8 pre cps ->
  forall fuel spare idx str reads rest,
    skipn idx bytes = pre ++ rest ->
    (idx + List.length pre <= len)%nat ->
    (List.length pre + spare <= fuel)%nat ->
    exists fuel',
      (spare <= fuel')%nat
      /\ decode_loop fuel bytes len idx str reads
         = decode_loop fuel' bytes len (idx + List.length pre)
             (str ++ Utf8.utf16 cps) (reads ++ seq idx (List.length pre)).
Proof.
  induction 1 as [| b0 r cps H0 Hw IH
                  | b0 b1 r cps H0 H1 Hw IH
                  | b0 b1 b2 r cps H0 H1 Hlo Hhi H2 Hw IH
                  | b0 b1 b2 b3 r cps H0 H1 Hlo Hhi H2 H3 Hw IH];
    intros fuel spare idx str reads rest Hs Hl Hf;
    cbn [List.length app] in *.
  - exists fuel. split; [lia |].
    cbn [Utf8.utf16 flat_map seq]. now rewrite Nat.add_0_r, !app_nil_r.
  - destruct fuel as [| fuel]; [lia |].
    rewrite (loop_step_1 bytes len fuel idx str reads b0 (r ++ rest))
      by (assumption || lia).
    destruct (skipn_cons_inv _ _ _ _ Hs) as [_ Hs1].
    destruct (IH fuel spare (S idx) (str ++ [b0]) (reads ++ [idx]) rest Hs1
                ltac:(lia) ltac:(lia)) as (fuel' & Hsp & He).
    exists fuel'. split; [exact Hsp |]. rewrite He.
    cbn [Utf8.utf16 flat_map seq]. unfold Utf8.utf16_cp.
    destruct (Z.ltb_spec b0 0x10000); [| lia].
    rewrite <- !app_assoc. cbn [app]. f_equal. lia.
  - destruct fuel as [| fuel]; [lia |].
    rewrite (loop_step_2 bytes len fuel idx str reads b0 b1 (r ++ rest))
      by (assumption || lia).
    destruct (skipn_cons_inv _ _ _ _ Hs) as [_ Hs1].
    destruct (skipn_cons_inv _ _ _ _ Hs1) as [_ Hs2].
    destruct (IH fuel spare (S (S idx)) (str ++ [(b0 - 192) * 64 + (b1 - 128)])
                (reads ++ [idx; S idx]) rest Hs2 ltac:(lia) ltac:(lia))
      as (fuel' & Hsp & He).
    exists fuel'. split; [lia |]. rewrite He.
    cbn [Utf8.utf16 flat_map seq]. unfold Utf8.utf16_cp.
    destruct (Z.ltb_spec ((b0 - 0xC0) * 64 + (b1 - 0x80)) 0x10000); [| lia].
    rewrite <- !app_assoc. cbn [app]. f_equal. lia.
  - destruct fuel as [| fuel]; [lia |].
    rewrite (loop_step_3 bytes len fuel idx str reads b0 b1 b2 (r ++ rest))
      by (assumption || lia).
    destruct (skipn_cons_inv _ _ _ _ Hs) as [_ Hs1].
    destruct (skipn_cons_inv _ _ _ _ Hs1) as [_ Hs2].
    destruct (skipn_cons_inv _ _ _ _ Hs2) as [_ Hs3].
    destruct (IH fuel spare (S (S (S idx)))
                (str ++ [(b0 - 224) * 4096 + (b1 - 128) * 64 + (b2 - 128)])
                (reads ++ [idx; S idx; S (S idx)]) rest Hs3 ltac:(lia) ltac:(lia))
      as (fuel' & Hsp & He).
    exists fuel'. split; [lia |]. rewrite He.
    cbn [Utf8.utf16 flat_map seq]. unfold Utf8.utf16_cp.
    destruct (Z.ltb_spec ((b0 - 0xE0) * 4096 + (b1 - 0x80) * 64 + (b2 - 0x80))
                         0x10000); [| lia].
    rewrite <- !app_assoc. cbn [app]. f_equal. lia.
  - destruct fuel as [| fuel]; [lia |].
    rewrite (loop_step_4 bytes len fuel idx str reads b0 b1 b2 b3 (r ++ rest))
      by (assumption || lia).
    destruct (skipn_cons_inv _ _ _ _ Hs) as [_ Hs1].
    destruct (skipn_cons_inv _ _ _ _ Hs1) as [_ Hs2].
    destruct (skipn_cons_inv _ _ _ _ Hs2) as [_ Hs3].
    destruct (skipn_cons_inv _ _ _ _ Hs3) as [_ Hs4].
    destruct (IH fuel spare (S (S (S (S idx))))
                (str ++ Utf8.utf16_cp ((b0 - 240) * 262144 + (b1 - 128) * 4096
                                       + (b2 - 128) * 64 + (b3 - 128)))
                (reads ++ [idx; S idx; S (S idx); S (S (S idx))]) rest Hs4
                ltac:(lia) ltac:(lia))
      as (fuel' & Hsp & He).
    exists fuel'. split; [lia |]. rewrite He.
    cbn [Utf8.utf16 flat_map seq].
    rewrite <- !app_assoc. cbn [app]. f_equal. lia.
Qed.

(** An iteration that starts on a byte with its high bit set reads the
    next element as well. *)
Lemma loop_high_bit_step fuel idx str b :
  (idx < len)%nat ->
  (len - idx <= S fuel)%nat ->
  element bytes idx = Some b ->
  0x80 <= b <= 0xFF ->
  exists str' k,
    decode_loop (S fuel) bytes len idx str (seq 0 idx) = Some (str', seq 0 k)
    /\ (idx + 2 <= k)%nat.
Proof.
  intros Hi Hf E0 Hb.
  cbn [decode_loop]. destruct (Nat.ltb_spec idx len); [| lia].
  rewrite E0. cbn [num]. rewrite lead_test_1 by lia.
  destruct (Z.leb_spec b 0x7F); [lia |].
  repeat match goal with
         | |- context [if ?c then _ else _] => destruct c
         end;
    cbv beta iota zeta; rewrite ?seq_snoc;
    match goal with
    | |- exists _ _, decode_loop _ _ _ ?i ?s _ = _ /\ _ =>
        destruct (decode_loop_reads fuel bytes len i s ltac:(lia))
          as (str' & k & He & Hk & _);
        exists str', k; split; [exact He | lia]
    end.
Qed.

End Prefix.

(** X4. When the view holds well-formed UTF-8 followed by one last byte
    with its high bit set (the start of a sequence the view cuts short),
    the loop reads index [len], one element after the end of the view,
    where there is nothing to read. *)
Theorem short_loop_reads_past_cut_sequence pre b :
  Utf8.valid pre = true ->
  0x80 <= b <= 0xFF ->
  exists str k,
    decode_short (pre ++ [b]) (List.length (pre ++ [b])) = Some (str, seq 0 k)
    /\ In (List.length (pre ++ [b])) (seq 0 k)
    /\ element (pre ++ [b]) (List.length (pre ++ [b])) = None.
Proof.
  intros Hv Hb. destruct (valid_wf _ Hv) as [cps Hw].
  rewrite length_app. cbn [List.length].
  set (len := (List.length pre + 1)%nat). unfold decode_short.
  destruct (decode_loop_prefix (pre ++ [b]) len pre cps Hw len 1%nat 0%nat [] [] [b]
              eq_refl ltac:(lia) ltac:(lia)) as (fuel' & Hsp & He).
  rewrite He. cbn [app Nat.add].
  destruct fuel' as [| fuel']; [lia |].
  assert (E0 : element (pre ++ [b]) (List.length pre) = Some b).
  { unfold element. rewrite nth_error_app2, Nat.sub_diag by lia. reflexivity. }
  destruct (loop_high_bit_step (pre ++ [b]) len fuel' (List.length pre)
              (Utf8.utf16 cps) b ltac:(lia) ltac:(lia) E0 Hb)
    as (str & k & Hk & Hle).
  exists str, k. split; [exact Hk |]. split.
  - apply in_seq. lia.
  - unfold element. apply nth_error_None. rewrite length_app. cbn. lia.
Qed.

Lemma short_loop_reads_past_cut_sequence_witness :
  (Utf8.valid [0x68; 0xC3; 0xA9] = true /\ 0x80 <= 0xE2 <= 0xFF)
  /\ exists str k,
       decode_short ([0x68; 0xC3; 0xA9] ++ [0xE2])
         (List.length ([0x68; 0xC3; 0xA9] ++ [0xE2])) = Some (str, seq 0 k)
       /\ In (List.length ([0x68; 0xC3; 0xA9] ++ [0xE2])) (seq 0 k)
       /\ element ([0x68; 0xC3; 0xA9] ++ [0xE2])
            (List.length ([0x68; 0xC3; 0xA9] ++ [0xE2])) = None.
Proof.
  split; [split; [reflexivity | lia] |].
  apply (short_loop_reads_past_cut_sequence [0x68; 0xC3; 0xA9] 0xE2);
    [reflexivity | lia].
Defined.

(** ** [getStr] on well-formed text *)

Lemma window_length ptr len (buf : list Z) :
  fits ptr len buf = true -> List.length (window ptr len buf) = Z.to_nat len.
Proof.
  intros Hf. apply fits_spec in Hf. unfold window.
  rewrite length_firstn, length_skipn. lia.
Qed.

Lemma wf_scalars bytes cps : wf_utf8 bytes cps -> Forall Utf8.scalar cps.
Proof.
  induction 1; constructor; (assumption || unfold Utf8.scalar; lia).
Qed.

Section ReadingText.

Context {F : Type}.
Variable wasm : Handle F.

Lemma getStr_wf ptr (w : World F) cps :
  fits ptr (str_len wasm ptr (store w)) (buffer (store w)) = true ->
  wf_utf8 (window ptr (str_len wasm ptr (store w)) (buffer (store w))) cps ->
  str_len wasm ptr (store w) <= 16
  \/ Utf8.strip_bom (window ptr (str_len wasm ptr (store w)) (buffer (store w)))
     = window ptr (str_len wasm ptr (store w)) (buffer (store w)) ->
  getStr wasm ptr w = (Return (Utf8.utf16 cps), w).
Proof.
  intros Hf Hw Hb. rewrite getStr_run by assumption. do 2 f_equal.
  pose proof (window_length _ _ _ Hf) as Hl.
  unfold decoded.
  destruct (Z.gtb_spec (str_len wasm ptr (store w)) 16) as [Hgt | Hle].
  - destruct Hb as [Hb | Hb]; [lia |].
    unfold Utf8.TextDecoder_decode. now rewrite Hb, (decoder_run_wf _ _ Hw).
  - rewrite <- Hl, (decode_short_wf _ _ Hw). reflexivity.
Qed.

(** X2. When the [len] bytes at [ptr] are well-formed UTF-8 and either
    [len] is at most 16 or they do not begin with a byte order mark,
    [getStr] returns the UTF-16 form of the code points they denote,
    whichever of its two paths it takes. *)
Theorem getStr_decodes_well_formed_text ptr (w : World F) cps :
  fits ptr (str_len wasm ptr (store w)) (buffer (store w)) = true ->
  Utf8.parse (window ptr (str_len wasm ptr (store w)) (buffer (store w)))
  = Some cps ->
  str_len wasm ptr (store w) <= 16
  \/ Utf8.strip_bom (window ptr (str_len wasm ptr (store w)) (buffer (store w)))
     = window ptr (str_len wasm ptr (store w)) (buffer (store w)) ->
  getStr wasm ptr w = (Return (Utf8.utf16 cps), w).
Proof.
  intros Hf Hp Hb. apply getStr_wf; try assumption. now apply parse_wf.
Qed.

(** X3. When the bytes at [ptr] are a byte order mark followed by
    well-formed UTF-8, [getStr] returns U+FEFF followed by the text if
    [len] is at most 16, and the text alone if [len] is more than 16. *)
Theorem getStr_byte_order_mark ptr (w : World F) bytes cps :
  fits ptr (str_len wasm ptr (store w)) (buffer (store w)) = true ->
  window ptr (str_len wasm ptr (store w)) (buffer (store w))
  = 0xEF :: 0xBB :: 0xBF :: bytes ->
  Utf8.parse bytes = Some cps ->
  getStr wasm ptr w
  = (Return (if str_len wasm ptr (store w) >? 16
             then Utf8.utf16 cps
             else 0xFEFF :: Utf8.utf16 cps), w).
Proof.
  intros Hf Hwin Hp. apply parse_wf in Hp.
  rewrite getStr_run by assumption. do 2 f_equal.
  pose proof (window_length _ _ _ Hf) as Hl. rewrite Hwin in Hl.
  unfold decoded. rewrite Hwin.
  destruct (decoders_on_bom bytes cps Hp) as [Hs Hd].
  destruct (str_len wasm ptr (store w) >? 16); [exact Hd |].
  rewrite <- Hl. cbn [List.length].
  change (S (S (S (List.length bytes)))) with (3 + List.length bytes)%nat.
  now rewrite Hs.
Qed.

End ReadingText.

(** ** Encoding what was decoded *)

Lemma to_scalars_utf16 cps :
  Forall Utf8.scalar cps -> Utf8.to_scalars (Utf8.utf16 cps) = cps.
Proof.
  induction 1 as [| c cps Hc _ IH]; [reflexivity |].
  cbn [Utf8.utf16 flat_map]. fold (Utf8.utf16 cps).
  unfold Utf8.scalar in Hc. unfold Utf8.utf16_cp.
  destruct (Z.ltb_spec c 0x10000).
  - cbn [app Utf8.to_scalars].
    unfold Utf8.is_high_surrogate, Utf8.is_low_surrogate.
    rewrite !in_range_false by lia. now rewrite IH.
  - rewrite Z.shiftr_div_pow2 by lia.
    change 0x3FF with (Z.ones 10). rewrite Z.land_ones by lia.
    cbn [app Utf8.to_scalars].
    unfold Utf8.is_high_surrogate, Utf8.is_low_surrogate.
    rewrite !in_range_true by dlia. rewrite IH. f_equal. dlia.
Qed.

Lemma encode_cps_of_wf bytes cps :
  wf_utf8 bytes cps -> Utf8.encode_cps cps = bytes.
Proof.
  induction 1 as [| b0 r cps H0 Hw IH
                  | b0 b1 r cps H0 H1 Hw IH
                  | b0 b1 b2 r cps H0 H1 Hlo Hhi H2 Hw IH
                  | b0 b1 b2 b3 r cps H0 H1 Hlo Hhi H2 H3 Hw IH];
    [reflexivity | | | |];
    cbn [Utf8.encode_cps flat_map]; fold (Utf8.encode_cps cps); rewrite IH;
    unfold Utf8.encode_cp.
  - destruct (Z.leb_spec b0 0x7F); [reflexivity | lia].
  - destruct (Z.leb_spec ((b0 - 192) * 64 + (b1 - 128)) 0x7F); [lia |].
    destruct (Z.leb_spec ((b0 - 192) * 64 + (b1 - 128)) 0x7FF); [| lia].
    rewrite !continuation_byte, !Z.shiftr_div_pow2 by lia. cbn [app].
    f_equal; [dlia | f_equal; dlia].
  - destruct (Z.leb_spec ((b0 - 224) * 4096 + (b1 - 128) * 64 + (b2 - 128)) 0x7F);
      [lia |].
    destruct (Z.leb_spec ((b0 - 224) * 4096 + (b1 - 128) * 64 + (b2 - 128)) 0x7FF);
      [lia |].
    destruct (Z.leb_spec ((b0 - 224) * 4096 + (b1 - 128) * 64 + (b2 - 128)) 0xFFFF);
      [| lia].
    rewrite !continuation_byte, !Z.shiftr_div_pow2 by lia. cbn [app].
    f_equal; [dlia | f_equal; [dlia | f_equal; dlia]].
  - destruct (Z.leb_spec ((b0 - 240) * 262144 + (b1 - 128) * 4096
                          + (b2 - 128) * 64 + (b3 - 128)) 0x7F); [lia |].
    destruct (Z.leb_spec ((b0 - 240) * 262144 + (b1 - 128) * 4096
                          + (b2 - 128) * 64 + (b3 - 128)) 0x7FF); [lia |].
    destruct (Z.leb_spec ((b0 - 240) * 262144 + (b1 - 128) * 4096
                          + (b2 - 128) * 64 + (b3 - 128)) 0xFFFF); [lia |].
    rewrite !continuation_byte, !Z.shiftr_div_pow2 by lia. cbn [app].
    f_equal; [dlia | f_equal; [dlia | f_equal; [dlia | f_equal; dlia]]].
Qed.

(** X11. A text that [getStr] reads from well-formed UTF-8 bytes (at most
    16 of them, or not beginning with a byte order mark) is encoded by
    [TextEncoder] (hence written by [setStr]) as the very bytes it was
    read from. *)
Theorem getStr_then_encode_gives_bytes {F : Type} (wasm : Handle F) ptr
    (w : World F) :
  fits ptr (str_len wasm ptr (store w)) (buffer (store w)) = true ->
  Utf8.valid (window ptr (str_len wasm ptr (store w)) (buffer (store w))) = true ->
  str_len wasm ptr (store w) <= 16
  \/ Utf8.strip_bom (window ptr (str_len wasm ptr (store w)) (buffer (store w)))
     = window ptr (str_len wasm ptr (store w)) (buffer (store w)) ->
  exists str,
    getStr wasm ptr w = (Return str, w)
    /\ Utf8.TextEncoder_encode str
       = window ptr (str_len wasm ptr (store w)) (buffer (store w)).
Proof.
  intros Hf Hv Hb. destruct (valid_wf _ Hv) as [cps Hw].
  exists (Utf8.utf16 cps). split; [now apply getStr_wf |].
  unfold Utf8.TextEncoder_encode.
  rewrite to_scalars_utf16 by (eapply wf_scalars; eassumption).
  now apply encode_cps_of_wf.
Qed.

Lemma getStr_decodes_well_formed_text_witness :
  (fits 8 (str_len Sample.bump 8
             (store (Sample.failed (Utf8.TextEncoder_encode Sample.mixed) 1)))
        (buffer (store (Sample.failed (Utf8.TextEncoder_encode Sample.mixed) 1)))
   = true
   /\ str_len Sample.bump 8
        (store (Sample.failed (Utf8.TextEncoder_encode Sample.mixed) 1)) <= 16)
  /\ getStr Sample.bump 8 (Sample.failed (Utf8.TextEncoder_encode Sample.mixed) 1)
     = (Return Sample.mixed,
        Sample.failed (Utf8.TextEncoder_encode Sample.mixed) 1).
Proof.
  split; [evaluated |].
  apply (getStr_decodes_well_formed_text Sample.bump 8
           (Sample.failed (Utf8.TextEncoder_encode Sample.mixed) 1)
           (Utf8.to_scalars Sample.mixed));
    [reflexivity | reflexivity | left; vm_compute; discriminate].
Defined.

Lemma getStr_byte_order_mark_witness :
  (fits 8 (str_len Sample.bump 8
             (store (Sample.failed
                       (0xEF :: 0xBB :: 0xBF :: Utf8.TextEncoder_encode Sample.hello) 1)))
        (buffer (store (Sample.failed
                          (0xEF :: 0xBB :: 0xBF :: Utf8.TextEncoder_encode Sample.hello) 1)))
   = true)
  /\ getStr Sample.bump 8
       (Sample.failed (0xEF :: 0xBB :: 0xBF :: Utf8.TextEncoder_encode Sample.hello) 1)
     = (Return (0xFEFF :: Sample.hello),
        Sample.failed (0xEF :: 0xBB :: 0xBF :: Utf8.TextEncoder_encode Sample.hello) 1).
Proof.
  split; [reflexivity |].
  apply (getStr_byte_order_mark Sample.bump 8
           (Sample.failed (0xEF :: 0xBB :: 0xBF :: Utf8.TextEncoder_encode Sample.hello) 1)
           (Utf8.TextEncoder_encode Sample.hello) (Utf8.to_scalars Sample.hello));
    reflexivity.
Defined.

Lemma getStr_then_encode_gives_bytes_witness :
  (fits 8 (str_len Sample.bump 8
             (store (Sample.failed (Utf8.TextEncoder_encode Sample.mixed) 1)))
        (buffer (store (Sample.failed (Utf8.TextEncoder_encode Sample.mixed) 1)))
   = true
   /\ Utf8.valid (Utf8.TextEncoder_encode Sample.mixed) = true)
  /\ exists str,
       getStr Sample.bump 8 (Sample.failed (Utf8.TextEncoder_encode Sample.mixed) 1)
       = (Return str, Sample.failed (Utf8.TextEncoder_encode Sample.mixed) 1)
       /\ Utf8.TextEncoder_encode str
          = window 8 (str_len Sample.bump 8
                        (store (Sample.failed (Utf8.TextEncoder_encode Sample.mixed) 1)))
              (buffer (store (Sample.failed (Utf8.TextEncoder_encode Sample.mixed) 1))).
Proof.
  split; [evaluated |].
  apply (getStr_then_encode_gives_bytes Sample.bump 8
           (Sample.failed (Utf8.TextEncoder_encode Sample.mixed) 1));
    [reflexivity | reflexivity | left; vm_compute; discriminate].
Defined.

(** ** Nested "move in" operations *)

Section Nested.

Context {F T : Type}.
Variable Status_Unknown : Z.
Variable wasm : Handle F.
Variable closure : Z -> Z -> M F T.

(** X5. A "move in" operation run inside the continuation of another
    one: when both allocations succeed, the inner continuation runs with
    both payloads in memory, its outcome (value or thrown value) is the
    outcome of the whole, and the two pointers are freed once each, the
    inner one first. *)
Theorem nested_move_in_releases_in_reverse p q (w : World F) a s b s' o w_out :
  malloc wasm (request p) (store w) = (a, s) ->
  a <> 0 ->
  malloc wasm (request q) (store (entered p a s (log w))) = (b, s') ->
  b <> 0 ->
  closure a b (entered q b s' (log (entered p a s (log w)))) = (o, w_out) ->
  move_in Status_Unknown wasm p
    (fun ptr1 => move_in Status_Unknown wasm q (fun ptr2 => closure ptr1 ptr2)) w
  = (o, mkWorld (free wasm a (free wasm b (store w_out)))
                (log w_out ++ [EvFree b; EvFree a]))
  /\ log (entered q b s' (log (entered p a s (log w))))
     = log w ++ [EvMalloc (request p) a; EvCall a; EvMalloc (request q) b; EvCall b].
Proof.
  intros Ha Hna Hb Hnb Hc. split.
  - rewrite (move_in_run _ _ _ _ _ _ _ Ha Hna).
    rewrite (move_in_run _ _ _ _ _ _ _ Hb Hnb).
    rewrite Hc. cbn [released store log].
    now rewrite <- app_assoc.
  - cbn [entered log]. now rewrite <- app_assoc.
Qed.

(** X6. When the allocation of the inner operation fails, the inner
    continuation is not run, the "Out of memory." error is what the
    whole throws, and the pointer of the outer operation is freed all
    the same. *)
Theorem nested_out_of_memory_frees_outer p q (w : World F) a s s' :
  malloc wasm (request p) (store w) = (a, s) ->
  a <> 0 ->
  malloc wasm (request q) (store (entered p a s (log w))) = (0, s') ->
  move_in Status_Unknown wasm p
    (fun ptr1 => move_in Status_Unknown wasm q (fun ptr2 => closure ptr1 ptr2)) w
  = (Throw (ESqlite (mkSqliteError (lit "Out of memory.") Status_Unknown)),
     mkWorld (free wasm a s')
             (log w ++ [EvMalloc (request p) a; EvCall a;
                        EvMalloc (request q) 0; EvFree a])).
Proof.
  intros Ha Hna Hb.
  rewrite (move_in_run _ _ _ _ _ _ _ Ha Hna).
  rewrite (move_in_oom _ _ _ _ _ _ Hb).
  cbn [released store log entered].
  now rewrite <- !app_assoc.
Qed.

End Nested.

(** ** NUL-terminated strings *)

Lemma encode_cp_nonzero c :
  0 <= c -> c <> 0 -> Forall (fun b => b <> 0) (Utf8.encode_cp c).
Proof.
  intros Hc Hn. unfold Utf8.encode_cp.
  destruct (Z.leb_spec c 0x7F); [repeat constructor; assumption |].
  destruct (Z.leb_spec c 0x7FF); [| destruct (Z.leb_spec c 0xFFFF)];
    rewrite !continuation_byte, !Z.shiftr_div_pow2 by lia;
    repeat constructor; dlia.
Qed.

Lemma encode_cps_nonzero cps :
  Forall Utf8.scalar cps -> Forall (fun c => c <> 0) cps ->
  Forall (fun b => b <> 0) (Utf8.encode_cps cps).
Proof.
  induction 1 as [| c cps Hc _ IH]; intros Hn; [constructor |].
  inversion Hn; subst. cbn [Utf8.encode_cps flat_map].
  apply Forall_app. split; [| now apply IH].
  apply encode_cp_nonzero; [unfold Utf8.scalar in Hc; lia | assumption].
Qed.

Lemma encode_cps_app x y :
  Utf8.encode_cps (x ++ y) = Utf8.encode_cps x ++ Utf8.encode_cps y.
Proof. apply flat_map_app. Qed.

Lemma strlen_from_terminated bytes rest :
  Forall (fun b => b <> 0) bytes ->
  Sample.strlen_from (bytes ++ 0 :: rest) = Z.of_nat (List.length bytes).
Proof.
  induction 1 as [| b bytes Hb _ IH]; [reflexivity |].
  cbn [app Sample.strlen_from List.length].
  destruct (Z.eqb_spec b 0); [contradiction |]. rewrite IH. lia.
Qed.

(** What [TextEncoder] makes of the code units of any string. *)
Lemma to_scalars_units_bounded n : forall s,
  (List.length s <= n)%nat ->
  units s ->
  Forall Utf8.scalar (Utf8.to_scalars s)
  /\ Utf8.utf16 (Utf8.to_scalars s) = toWellFormed s
  /\ (leading_bom s = false ->
      match Utf8.to_scalars s with c :: _ => c <> 0xFEFF | [] => True end)
  /\ (no_nul s -> Forall (fun c => c <> 0) (Utf8.to_scalars s)).
Proof.
  induction n as [| n IH]; intros s Hn Hu.
  { destruct s; [| cbn in Hn; lia]. cbn. repeat split; auto. }
  destruct s as [| c rest]; [cbn; repeat split; auto |].
  cbn [List.length] in Hn. inversion Hu as [| ? ? Hc Hur]; subst.
  cbn [Utf8.to_scalars toWellFormed leading_bom].
  unfold Utf8.scalar.
  destruct (Utf8.is_high_surrogate c) eqn:Eh.
  - unfold Utf8.is_high_surrogate in Eh. apply in_range_spec in Eh.
    destruct rest as [| d rest'].
    { cbn. repeat split; repeat constructor; lia. }
    destruct (Utf8.is_low_surrogate d) eqn:El.
    + cbn [List.length] in Hn. inversion Hur as [| ? ? Hd Hur']; subst.
      destruct (IH rest' ltac:(lia) Hur') as (Hs & Hut & _ & Hz).
      unfold Utf8.is_low_surrogate in El. apply in_range_spec in El.
      split; [constructor; [lia | assumption] |].
      split.
      { cbn [Utf8.utf16 flat_map]. fold (Utf8.utf16 (Utf8.to_scalars rest')).
        rewrite Hut. unfold Utf8.utf16_cp.
        destruct (Z.ltb_spec (65536 + (c - 55296) * 1024 + (d - 56320)) 65536);
          [lia |].
        rewrite Z.shiftr_div_pow2 by lia.
        change 1023 with (Z.ones 10). rewrite Z.land_ones by lia.
        cbn [app]. f_equal; [dlia | f_equal; dlia]. }
      split; [intros _; lia |].
      intros Hnn. inversion Hnn as [| ? ? _ Hnn']; subst.
      inversion Hnn' as [| ? ? _ Hnn'']; subst.
      constructor; [lia | now apply Hz].
    + destruct (IH (d :: rest') ltac:(lia) Hur) as (Hs & Hut & _ & Hz).
      split; [constructor; [lia | assumption] |].
      split.
      { cbn [Utf8.utf16 flat_map].
        fold (Utf8.utf16 (Utf8.to_scalars (d :: rest'))).
        rewrite Hut. reflexivity. }
      split; [intros _; lia |].
      intros Hnn. inversion Hnn; subst. constructor; [lia | now apply Hz].
  - destruct (IH rest ltac:(lia) Hur) as (Hs & Hut & _ & Hz).
    destruct (Utf8.is_low_surrogate c) eqn:El.
    + split; [constructor; [lia | assumption] |].
      split.
      { cbn [Utf8.utf16 flat_map]. fold (Utf8.utf16 (Utf8.to_scalars rest)).
        rewrite Hut. reflexivity. }
      unfold Utf8.is_low_surrogate in El. apply in_range_spec in El.
      split; [intros _; lia |].
      intros Hnn. inversion Hnn; subst. constructor; [lia | now apply Hz].
    + assert (Hsc : 0 <= c < 55296 \/ 57344 <= c < 1114112).
      { unfold Utf8.is_high_surrogate, Utf8.is_low_surrogate in *.
        destruct (Z.le_gt_cases 0xD800 c); [| lia].
        destruct (Z.le_gt_cases c 0xDBFF);
          [rewrite in_range_true in Eh by lia; discriminate |].
        destruct (Z.le_gt_cases c 0xDFFF);
          [rewrite in_range_true in El by lia; discriminate | lia]. }
      split; [constructor; assumption |].
      split.
      { cbn [Utf8.utf16 flat_map]. fold (Utf8.utf16 (Utf8.to_scalars rest)).
        rewrite Hut. unfold Utf8.utf16_cp.
        destruct (Z.ltb_spec c 65536); [reflexivity | lia]. }
      split; [intros Hb; now apply Z.eqb_neq |].
      intros Hnn. inversion Hnn; subst. constructor; [assumption | now apply Hz].
Qed.

Lemma to_scalars_units s :
  units s ->
  Forall Utf8.scalar (Utf8.to_scalars s)
  /\ Utf8.utf16 (Utf8.to_scalars s) = toWellFormed s
  /\ (leading_bom s = false ->
      match Utf8.to_scalars s with c :: _ => c <> 0xFEFF | [] => True end)
  /\ (no_nul s -> Forall (fun c => c <> 0) (Utf8.to_scalars s)).
Proof. apply (to_scalars_units_bounded (List.length s)). lia. Qed.

Lemma to_scalars_zero s : Utf8.to_scalars (0 :: s) = 0 :: Utf8.to_scalars s.
Proof. reflexivity. Qed.

Lemma to_scalars_before_zero_bounded n : forall a b,
  (List.length a <= n)%nat ->
  Utf8.to_scalars (a ++ 0 :: b) = Utf8.to_scalars a ++ 0 :: Utf8.to_scalars b.
Proof.
  induction n as [| n IH]; intros a b Hn.
  { destruct a; [reflexivity | cbn in Hn; lia]. }
  destruct a as [| c a']; [reflexivity |].
  cbn [List.length] in Hn. cbn [app Utf8.to_scalars].
  destruct (Utf8.is_high_surrogate c).
  - destruct a' as [| d a'']; cbn [app].
    + reflexivity.
    + cbn [List.length] in Hn. destruct (Utf8.is_low_surrogate d).
      * rewrite IH by lia. reflexivity.
      * change (d :: a'' ++ 0 :: b) with ((d :: a'') ++ 0 :: b).
        rewrite (IH (d :: a'') b) by (cbn [List.length]; lia). reflexivity.
  - destruct (Utf8.is_low_surrogate c); rewrite IH by lia; reflexivity.
Qed.

Lemma toWellFormed_id_bounded n : forall s,
  (List.length s <= n)%nat ->
  Utf8.well_formed s = true -> toWellFormed s = s.
Proof.
  induction n as [| n IH]; intros s Hn Hw.
  { destruct s; [reflexivity | cbn in Hn; lia]. }
  destruct s as [| c rest]; [reflexivity |].
  cbn [List.length] in Hn. cbn [Utf8.well_formed toWellFormed] in *.
  destruct (Utf8.is_high_surrogate c).
  - destruct rest as [| d rest']; [discriminate |].
    apply andb_true_iff in Hw. destruct Hw as [El Hw]. rewrite El.
    cbn [List.length] in Hn. now rewrite IH by (lia || assumption).
  - apply andb_true_iff in Hw. destruct Hw as [Hw Hr].
    apply andb_true_iff in Hw. destruct Hw as [_ En].
    apply negb_true_iff in En. rewrite En.
    now rewrite IH by (lia || assumption).
Qed.

Lemma overwrite_skipn off src (buf : list Z) :
  (off <= List.length buf)%nat ->
  skipn off (overwrite off src buf) = src ++ skipn (off + List.length src) buf.
Proof.
  intros H. unfold overwrite.
  rewrite skipn_app, length_firstn.
  replace (Nat.min off (List.length buf)) with off by lia.
  rewrite Nat.sub_diag, skipn_all2 by (rewrite length_firstn; lia).
  reflexivity.
Qed.

Section CStrings.

Context {F : Type}.
Variable Status_Unknown : Z.
Variable wasm : Handle F.

(** What [getStr] finds, called from the continuation of [setStr], when
    the bytes written start with the encoding of [cps] followed by a
    zero byte. *)
Lemma setStr_read_back str cps tail (w : World F) ptr s :
  image (Str str) = Utf8.encode_cps cps ++ 0 :: tail ->
  Forall Utf8.scalar cps ->
  Forall (fun c => c <> 0) cps ->
  c_strings wasm ->
  Z.of_nat (List.length (Utf8.encode_cps cps)) <= 16
  \/ match cps with c :: _ => c <> 0xFEFF | [] => True end ->
  malloc wasm (request (Str str)) (store w) = (ptr, s) ->
  ptr <> 0 ->
  setStr Status_Unknown wasm str (getStr wasm) w
  = (Return (Utf8.utf16 cps),
     mkWorld (free wasm ptr (store (entered (Str str) ptr s (log w))))
             (log (entered (Str str) ptr s (log w)) ++ [EvFree ptr])).
Proof.
  intros Himg Hsc Hnz Hc Hbom Hm Hp.
  assert (Hf := malloc_fits wasm _ _ _ _ (Nat2Z.is_nonneg _) Hm Hp).
  apply fits_spec in Hf.
  rewrite (setStr_run _ _ _ _ _ _ _ Hm Hp).
  set (w_in := entered (Str str) ptr s (log w)) in *.
  set (bytes := Utf8.encode_cps cps) in *.
  assert (Hlen : List.length (image (Str str))
                 = (List.length bytes + S (List.length tail))%nat).
  { rewrite Himg, length_app. reflexivity. }
  assert (Hskip : skipn (Z.to_nat ptr) (buffer (store w_in))
                  = bytes ++ 0 :: (tail ++ skipn (Z.to_nat ptr
                                                  + List.length (image (Str str)))
                                            (buffer s))).
  { unfold w_in. cbn [entered store buffer].
    rewrite overwrite_skipn by lia. rewrite Himg at 1.
    rewrite <- app_assoc. reflexivity. }
  assert (Hsl : str_len wasm ptr (store w_in) = Z.of_nat (List.length bytes)).
  { rewrite Hc, Hskip. apply strlen_from_terminated.
    now apply encode_cps_nonzero. }
  assert (Hbuf : List.length (buffer (store w_in)) = List.length (buffer s)).
  { unfold w_in. cbn [entered store buffer]. apply overwrite_length; lia. }
  assert (Hfit : fits ptr (str_len wasm ptr (store w_in)) (buffer (store w_in)) = true).
  { rewrite Hsl. apply fits_spec. lia. }
  assert (Hwin : window ptr (str_len wasm ptr (store w_in)) (buffer (store w_in))
                 = bytes).
  { unfold window. rewrite Hsl, Hskip, Nat2Z.id.
    rewrite firstn_app, Nat.sub_diag, firstn_all. cbn [firstn].
    apply app_nil_r. }
  rewrite (getStr_wf wasm ptr w_in cps Hfit).
  - reflexivity.
  - rewrite Hwin. now apply encode_cps_wf.
  - rewrite Hwin, Hsl. destruct Hbom as [Hb | Hb]; [now left | right].
    now apply encode_without_bom.
Qed.

(** X7. When the string has no U+0000, the bytes [setStr] has written
    form a C string of exactly the encoded length: [setStr] runs its
    continuation in a memory where the first zero byte from [ptr] on is
    the terminator, so that a continuation measuring the string at the
    pointer it is given finds the encoded length. *)
Theorem setStr_writes_c_string str (w : World F) ptr s :
  units str ->
  no_nul str ->
  malloc wasm (request (Str str)) (store w) = (ptr, s) ->
  ptr <> 0 ->
  (forall (T : Type) (closure : Z -> M F T),
      setStr Status_Unknown wasm str closure w
      = released wasm ptr (closure ptr (entered (Str str) ptr s (log w))))
  /\ Sample.strlen_from
       (skipn (Z.to_nat ptr) (buffer (store (entered (Str str) ptr s (log w)))))
     = Z.of_nat (List.length (Utf8.TextEncoder_encode str))
  /\ fst (setStr Status_Unknown wasm str
            (fun p w' =>
               (Return (Sample.strlen_from
                          (skipn (Z.to_nat p) (buffer (store w')))), w'))
            w)
     = Return (Z.of_nat (List.length (Utf8.TextEncoder_encode str))).
Proof.
  intros Hu Hn Hm Hp.
  assert (Hf := malloc_fits wasm _ _ _ _ (Nat2Z.is_nonneg _) Hm Hp).
  apply fits_spec in Hf.
  destruct (to_scalars_units str Hu) as (Hs & _ & _ & Hz).
  assert (Hlen : Sample.strlen_from
                   (skipn (Z.to_nat ptr)
                      (buffer (store (entered (Str str) ptr s (log w)))))
                 = Z.of_nat (List.length (Utf8.TextEncoder_encode str))).
  { cbn [entered store buffer]. rewrite overwrite_skipn by lia.
    cbn [image]. rewrite <- app_assoc. cbn [app].
    apply strlen_from_terminated.
    apply encode_cps_nonzero; [assumption | now apply Hz]. }
  split; [intros T closure; now apply setStr_run |].
  split; [exact Hlen |].
  rewrite (setStr_run _ _ _ _ _ _ _ Hm Hp). cbn [released fst].
  now rewrite Hlen.
Qed.

(** X8. With a module whose [str_len] is [strlen]: a string without
    U+0000 (at most 16 bytes of UTF-8, or not beginning with U+FEFF)
    written by [setStr] and read by [getStr] at the same pointer comes
    back with each unpaired surrogate replaced by U+FFFD and nothing
    else changed; so a string without unpaired surrogates comes back as
    it is. *)
Theorem round_trip_with_strlen str (w : World F) ptr s :
  units str ->
  no_nul str ->
  c_strings wasm ->
  Z.of_nat (List.length (Utf8.TextEncoder_encode str)) <= 16
  \/ leading_bom str = false ->
  malloc wasm (request (Str str)) (store w) = (ptr, s) ->
  ptr <> 0 ->
  fst (setStr Status_Unknown wasm str (getStr wasm) w) = Return (toWellFormed str)
  /\ (Utf8.well_formed str = true -> toWellFormed str = str).
Proof.
  intros Hu Hn Hc Hbom Hm Hp.
  destruct (to_scalars_units str Hu) as (Hs & Hut & Hb & Hz).
  split.
  - rewrite (setStr_read_back str (Utf8.to_scalars str) [] w ptr s);
      try assumption.
    + cbn [fst]. now rewrite Hut.
    + reflexivity.
    + now apply Hz.
    + destruct Hbom as [Hl | Hl]; [now left | right; now apply Hb].
  - apply (toWellFormed_id_bounded (List.length str)). lia.
Qed.

(** X9. With a module whose [str_len] is [strlen]: for a string with a
    U+0000 in it, whose part before the first U+0000 takes at most 16
    bytes of UTF-8 or does not begin with U+FEFF, [setStr] writes the
    encoding of the part before, a zero byte, the encoding of the part
    after and the terminator, and [getStr] run by [setStr] on that
    memory returns the part before only, its unpaired surrogates
    replaced by U+FFFD: the part after is written but not read. *)
Theorem round_trip_cut_at_nul before after (w : World F) ptr s :
  units before ->
  no_nul before ->
  c_strings wasm ->
  Z.of_nat (List.length (Utf8.TextEncoder_encode before)) <= 16
  \/ leading_bom before = false ->
  malloc wasm (request (Str (before ++ 0 :: after))) (store w) = (ptr, s) ->
  ptr <> 0 ->
  setStr Status_Unknown wasm (before ++ 0 :: after) (getStr wasm) w
  = released wasm ptr
      (getStr wasm ptr (entered (Str (before ++ 0 :: after)) ptr s (log w)))
  /\ window ptr (request (Str (before ++ 0 :: after)))
       (buffer (store (entered (Str (before ++ 0 :: after)) ptr s (log w))))
     = Utf8.TextEncoder_encode before ++ 0 :: Utf8.TextEncoder_encode after ++ [0]
  /\ fst (setStr Status_Unknown wasm (before ++ 0 :: after) (getStr wasm) w)
     = Return (toWellFormed before)
  /\ (Utf8.well_formed before = true -> toWellFormed before = before).
Proof.
  intros Hu Hn Hc Hbom Hm Hp.
  destruct (to_scalars_units before Hu) as (Hs & Hut & Hb & Hz).
  assert (Himg : image (Str (before ++ 0 :: after))
                 = Utf8.encode_cps (Utf8.to_scalars before)
                   ++ 0 :: (Utf8.encode_cps (Utf8.to_scalars after) ++ [0])).
  { cbn [image]. unfold Utf8.TextEncoder_encode.
    rewrite (to_scalars_before_zero_bounded (List.length before)) by lia.
    rewrite encode_cps_app. cbn [Utf8.encode_cps flat_map].
    rewrite <- !app_assoc. reflexivity. }
  split; [now apply setStr_run |].
  split.
  { assert (Hf := malloc_fits wasm _ _ _ _ (Nat2Z.is_nonneg _) Hm Hp).
    apply fits_spec in Hf.
    cbn [entered store buffer]. unfold window, request.
    rewrite Nat2Z.id.
    rewrite <- (app_nil_r (image (Str (before ++ 0 :: after)))) at 2.
    rewrite overwrite_window by lia. exact Himg. }
  split.
  - rewrite (setStr_read_back (before ++ 0 :: after) (Utf8.to_scalars before)
               (Utf8.encode_cps (Utf8.to_scalars after) ++ [0]) w ptr s);
      try assumption.
    + cbn [fst]. now rewrite Hut.
    + now apply Hz.
    + destruct Hbom as [Hl | Hl]; [now left | right; now apply Hb].
  - apply (toWellFormed_id_bounded (List.length before)). lia.
Qed.

End CStrings.

Lemma setStr_writes_c_string_witness :
  (units Sample.mixed /\ no_nul Sample.mixed
   /\ malloc Sample.bump (request (Str Sample.mixed)) (store (Sample.blank 32))
      = (8, Sample.allotted 11)
   /\ 8 <> 0)
  /\ fst (setStr (-1) Sample.bump Sample.mixed
            (fun p w' =>
               (Return (Sample.strlen_from
                          (skipn (Z.to_nat p) (buffer (store w')))), w'))
            (Sample.blank 32))
     = Return (Z.of_nat (List.length (Utf8.TextEncoder_encode Sample.mixed))).
Proof.
  assert (Hu : units Sample.mixed) by (repeat constructor; lia).
  assert (Hn : no_nul Sample.mixed) by (repeat constructor; lia).
  split; [repeat match goal with |- _ /\ _ => split end;
          first [assumption | reflexivity | discriminate] |].
  destruct (setStr_writes_c_string (-1) Sample.bump Sample.mixed (Sample.blank 32) 8
              (Sample.allotted 11) Hu Hn eq_refl ltac:(discriminate))
    as (_ & _ & Hprobe).
  exact Hprobe.
Defined.

Lemma round_trip_with_strlen_witness :
  (units [0x61; 0xD800; 0x62] /\ no_nul [0x61; 0xD800; 0x62]
   /\ c_strings Sample.bump
   /\ Z.of_nat (List.length (Utf8.TextEncoder_encode [0x61; 0xD800; 0x62])) <= 16
   /\ malloc Sample.bump (request (Str [0x61; 0xD800; 0x62])) (store (Sample.blank 32))
      = (8, Sample.allotted 6)
   /\ 8 <> 0)
  /\ fst (setStr (-1) Sample.bump [0x61; 0xD800; 0x62] (getStr Sample.bump)
            (Sample.blank 32))
     = Return [0x61; 0xFFFD; 0x62].
Proof.
  assert (Hu : units [0x61; 0xD800; 0x62]) by (repeat constructor; lia).
  assert (Hn : no_nul [0x61; 0xD800; 0x62]) by (repeat constructor; lia).
  assert (Hc : c_strings Sample.bump) by (intros p st; reflexivity).
  assert (Hl : Z.of_nat (List.length (Utf8.TextEncoder_encode [0x61; 0xD800; 0x62]))
               <= 16) by (vm_compute; discriminate).
  split; [repeat match goal with |- _ /\ _ => split end;
          first [assumption | reflexivity | discriminate] |].
  apply (proj1 (round_trip_with_strlen (-1) Sample.bump [0x61; 0xD800; 0x62]
                  (Sample.blank 32) 8 (Sample.allotted 6) Hu Hn Hc (or_introl Hl)
                  eq_refl ltac:(discriminate))).
Defined.

Lemma round_trip_cut_at_nul_witness :
  (units Sample.hello /\ no_nul Sample.hello
   /\ c_strings Sample.bump
   /\ Z.of_nat (List.length (Utf8.TextEncoder_encode Sample.hello)) <= 16
   /\ malloc Sample.bump (request (Str (Sample.hello ++ 0 :: Sample.mixed)))
        (store (Sample.blank 32))
      = (8, Sample.allotted 18)
   /\ 8 <> 0)
  /\ fst (setStr (-1) Sample.bump (Sample.hello ++ 0 :: Sample.mixed)
            (getStr Sample.bump) (Sample.blank 32))
     = Return Sample.hello.
Proof.
  assert (Hu : units Sample.hello) by (repeat constructor; lia).
  assert (Hn : no_nul Sample.hello) by (repeat constructor; lia).
  assert (Hc : c_strings Sample.bump) by (intros p st; reflexivity).
  assert (Hl : Z.of_nat (List.length (Utf8.TextEncoder_encode Sample.hello)) <= 16)
    by (vm_compute; discriminate).
  split; [repeat match goal with |- _ /\ _ => split end;
          first [assumption | reflexivity | discriminate] |].
  destruct (round_trip_cut_at_nul (-1) Sample.bump Sample.hello Sample.mixed
              (Sample.blank 32) 8 (Sample.allotted 18) Hu Hn Hc (or_introl Hl)
              eq_refl ltac:(discriminate)) as (_ & _ & Hback & _).
  exact Hback.
Defined.

Lemma nested_move_in_releases_in_reverse_witness :
  (malloc Sample.bump (request (Str Sample.hello)) (store (Sample.blank 32))
   = (8, Sample.allotted 7)
   /\ 8 <> 0
   /\ malloc Sample.bump (request (Arr [1; 2; 3]))
        (store (entered (Str Sample.hello) 8 (Sample.allotted 7) []))
      = (15, snd (malloc Sample.bump (request (Arr [1; 2; 3]))
                    (store (entered (Str Sample.hello) 8 (Sample.allotted 7) []))))
   /\ 15 <> 0)
  /\ fst (move_in (-1) Sample.bump (Str Sample.hello)
            (fun ptr1 => move_in (-1) Sample.bump (Arr [1; 2; 3])
                           (fun ptr2 => ret (ptr1 + ptr2)))
            (Sample.blank 32))
     = Return 23
  /\ log (snd (move_in (-1) Sample.bump (Str Sample.hello)
                 (fun ptr1 => move_in (-1) Sample.bump (Arr [1; 2; 3])
                                (fun ptr2 => ret (ptr1 + ptr2)))
                 (Sample.blank 32)))
     = [EvMalloc 7 8; EvCall 8; EvMalloc 3 15; EvCall 15; EvFree 15; EvFree 8].
Proof.
  split; [evaluated |].
  rewrite (proj1 (nested_move_in_releases_in_reverse (-1) Sample.bump
                    (fun ptr1 ptr2 => ret (ptr1 + ptr2))
                    (Str Sample.hello) (Arr [1; 2; 3]) (Sample.blank 32)
                    8 (Sample.allotted 7) 15 _ _ _
                    eq_refl ltac:(discriminate) eq_refl ltac:(discriminate)
                    eq_refl)).
  split; reflexivity.
Defined.

Lemma nested_out_of_memory_frees_outer_witness :
  (malloc Sample.bump (request (Str Sample.hello)) (store (Sample.blank 16))
   = (8, snd (malloc Sample.bump (request (Str Sample.hello))
                (store (Sample.blank 16))))
   /\ 8 <> 0
   /\ fst (malloc Sample.bump (request (Arr [1; 2; 3]))
             (store (entered (Str Sample.hello) 8
                       (snd (malloc Sample.bump (request (Str Sample.hello))
                               (store (Sample.blank 16)))) [])))
      = 0)
  /\ fst (move_in (-1) Sample.bump (Str Sample.hello)
            (fun ptr1 => move_in (-1) Sample.bump (Arr [1; 2; 3])
                           (fun ptr2 => ret (ptr1 + ptr2)))
            (Sample.blank 16))
     = Throw (ESqlite (mkSqliteError (lit "Out of memory.") (-1)))
  /\ log (snd (move_in (-1) Sample.bump (Str Sample.hello)
                 (fun ptr1 => move_in (-1) Sample.bump (Arr [1; 2; 3])
                                (fun ptr2 => ret (ptr1 + ptr2)))
                 (Sample.blank 16)))
     = [EvMalloc 7 8; EvCall 8; EvMalloc 3 0; EvFree 8].
Proof.
  split; [evaluated |].
  rewrite (nested_out_of_memory_frees_outer (-1) Sample.bump
             (fun ptr1 ptr2 => ret (ptr1 + ptr2))
             (Str Sample.hello) (Arr [1; 2; 3]) (Sample.blank 16) 8 _ _
             eq_refl ltac:(discriminate) eq_refl).
  split; reflexivity.
Defined.

(** ** Sizes *)

Lemma encode_cp_length c :
  List.length (Utf8.encode_cp c)
  = if c <=? 0x7F then 1%nat
    else if c <=? 0x7FF then 2%nat
    else if c <=? 0xFFFF then 3%nat else 4%nat.
Proof.
  unfold Utf8.encode_cp.
  destruct (c <=? 0x7F); [reflexivity |].
  destruct (c <=? 0x7FF); [reflexivity |].
  destruct (c <=? 0xFFFF); reflexivity.
Qed.

Lemma encode_length_bounded n : forall s,
  (List.length s <= n)%nat ->
  units s ->
  (List.length s <= List.length (Utf8.TextEncoder_encode s) <= 3 * List.length s)%nat.
Proof.
  unfold Utf8.TextEncoder_encode.
  induction n as [| n IH]; intros s Hn Hu.
  { destruct s; [cbn; lia | cbn in Hn; lia]. }
  destruct s as [| c rest]; [cbn; lia |].
  cbn [List.length] in Hn. inversion Hu as [| ? ? Hc Hur]; subst.
  cbn [Utf8.to_scalars].
  destruct (Utf8.is_high_surrogate c) eqn:Eh.
  - unfold Utf8.is_high_surrogate in Eh. apply in_range_spec in Eh.
    destruct rest as [| d rest']; [cbn; lia |].
    destruct (Utf8.is_low_surrogate d) eqn:El.
    + cbn [List.length] in Hn. inversion Hur as [| ? ? Hd Hur']; subst.
      unfold Utf8.is_low_surrogate in El. apply in_range_spec in El.
      specialize (IH rest' ltac:(lia) Hur').
      cbn [Utf8.encode_cps flat_map List.length].
      rewrite length_app, encode_cp_length.
      fold (Utf8.encode_cps (Utf8.to_scalars rest')).
      destruct (Z.leb_spec (65536 + (c - 55296) * 1024 + (d - 56320)) 0x7F); [lia |].
      destruct (Z.leb_spec (65536 + (c - 55296) * 1024 + (d - 56320)) 0x7FF); [lia |].
      destruct (Z.leb_spec (65536 + (c - 55296) * 1024 + (d - 56320)) 0xFFFF); lia.
    + specialize (IH (d :: rest') ltac:(lia) Hur).
      cbn [Utf8.encode_cps flat_map].
      fold (Utf8.encode_cps (Utf8.to_scalars (d :: rest'))).
      rewrite length_app. cbn [List.length] in *.
      change (List.length (Utf8.encode_cp 65533)) with 3%nat. lia.
  - specialize (IH rest ltac:(lia) Hur).
    destruct (Utf8.is_low_surrogate c);
      cbn [Utf8.encode_cps flat_map];
      fold (Utf8.encode_cps (Utf8.to_scalars rest));
      rewrite length_app; cbn [List.length].
    + change (List.length (Utf8.encode_cp 65533)) with 3%nat. lia.
    + rewrite encode_cp_length.
      destruct (c <=? 0x7F); [lia |].
      destruct (c <=? 0x7FF); [lia |].
      destruct (Z.leb_spec c 0xFFFF); lia.
Qed.

(** X10. [setStr] calls [malloc] once, with a size that lies between
    the number of code units of the string plus one and three times that
    number plus one: with that size, either [malloc] answers 0 and
    [setStr] throws with that call alone in the log, or it answers a
    pointer and [setStr] runs its continuation with that call logged,
    then frees the pointer. *)
Theorem setStr_request_bounds {F T : Type} Status_Unknown (wasm : Handle F)
    str (closure : Z -> M F T) (w : World F) :
  units str ->
  exists size,
    Z.of_nat (List.length str) + 1 <= size <= 3 * Z.of_nat (List.length str) + 1
    /\ forall ptr s,
         malloc wasm size (store w) = (ptr, s) ->
         (ptr = 0 ->
          setStr Status_Unknown wasm str closure w
          = (Throw (ESqlite (mkSqliteError (lit "Out of memory.") Status_Unknown)),
             mkWorld s (log w ++ [EvMalloc size 0])))
         /\ (ptr <> 0 ->
             exists w_in,
               log w_in = log w ++ [EvMalloc size ptr; EvCall ptr]
               /\ setStr Status_Unknown wasm str closure w
                  = released wasm ptr (closure ptr w_in)).
Proof.
  intros Hu. exists (request (Str str)). split.
  - pose proof (encode_length_bounded (List.length str) str ltac:(lia) Hu) as H.
    unfold request, image. rewrite length_app. cbn [List.length]. lia.
  - intros ptr s Hm. split.
    + intros ->. apply (move_in_oom Status_Unknown wasm closure (Str str) w s Hm).
    + intros Hp. exists (entered (Str str) ptr s (log w)).
      split; [reflexivity | now apply setStr_run].
Qed.

Lemma setStr_request_bounds_witness :
  units Sample.mixed
  /\ exists size,
       Z.of_nat (List.length Sample.mixed) + 1 <= size
       <= 3 * Z.of_nat (List.length Sample.mixed) + 1
       /\ forall ptr s,
            malloc Sample.bump size (store (Sample.blank 32)) = (ptr, s) ->
            (ptr = 0 ->
             setStr (-1) Sample.bump Sample.mixed (Sample.boom 5) (Sample.blank 32)
             = (Throw (ESqlite (mkSqliteError (lit "Out of memory.") (-1))),
                mkWorld s (log (Sample.blank 32) ++ [EvMalloc size 0])))
            /\ (ptr <> 0 ->
                exists w_in,
                  log w_in = log (Sample.blank 32) ++ [EvMalloc size ptr; EvCall ptr]
                  /\ setStr (-1) Sample.bump Sample.mixed (Sample.boom 5)
                       (Sample.blank 32)
                     = released Sample.bump ptr (Sample.boom 5 ptr w_in)).
Proof.
  assert (Hu : units Sample.mixed) by (repeat constructor; lia).
  split; [assumption |].
  apply (setStr_request_bounds (-1) Sample.bump Sample.mixed (Sample.boom 5)
           (Sample.blank 32) Hu).
Defined.

(** ** Edges *)

Section Edges.

Context {F T : Type}.
Variable Status_Unknown : Z.
Variable wasm : Handle F.

(** X12. When the window that [get_sqlite_error_str] and [str_len]
    designate does not lie within the linear memory, building a
    [SqliteError] from the module does not give an error object: the
    constructor itself throws the [RangeError] of the view, whatever
    [code] was passed. *)
Theorem SqliteError_from_module_out_of_range code (w : World F) :
  fits (get_sqlite_error_str wasm (store w))
       (str_len wasm (get_sqlite_error_str wasm (store w)) (store w))
       (buffer (store w)) = false ->
  new_SqliteError Status_Unknown (inl wasm) code w = (Throw ERange, w).
Proof.
  intros Hf. rewrite new_SqliteError_run, getStr_misfit by assumption.
  reflexivity.
Qed.

(** X14. For an empty array [setArr] asks [malloc] for 0 bytes and, when
    that succeeds, writes nothing: the continuation starts in the very
    store [malloc] left, and the pointer is freed afterwards. *)
Theorem setArr_empty_array (closure : Z -> M F T) (w : World F) ptr s :
  malloc wasm 0 (store w) = (ptr, s) ->
  ptr <> 0 ->
  setArr Status_Unknown wasm [] closure w
  = released wasm ptr
      (closure ptr (mkWorld s (log w ++ [EvMalloc 0 ptr; EvCall ptr]))).
Proof.
  intros Hm Hp.
  assert (Hf := malloc_fits wasm _ _ _ _ (Z.le_refl 0) Hm Hp).
  apply fits_spec in Hf.
  rewrite (setArr_run Status_Unknown wasm closure [] w ptr s Hm Hp).
  do 2 f_equal. unfold entered, overwrite, request, image.
  cbn [app List.length]. rewrite Nat.add_0_r, firstn_skipn.
  destruct s; reflexivity.
Qed.

End Edges.

Lemma SqliteError_from_module_out_of_range_witness :
  fits (get_sqlite_error_str Sample.bump
          (mkStore (repeat 0 8) (Sample.mkArena 8 40 1)))
       (str_len Sample.bump
          (get_sqlite_error_str Sample.bump
             (mkStore (repeat 0 8) (Sample.mkArena 8 40 1)))
          (mkStore (repeat 0 8) (Sample.mkArena 8 40 1)))
       (repeat 0 8) = false
  /\ new_SqliteError (-1) (inl Sample.bump) (Some 7)
       (mkWorld (mkStore (repeat 0 8) (Sample.mkArena 8 40 1)) [])
     = (Throw ERange, mkWorld (mkStore (repeat 0 8) (Sample.mkArena 8 40 1)) []).
Proof.
  split; [reflexivity |].
  apply (SqliteError_from_module_out_of_range (-1) Sample.bump (Some 7)
           (mkWorld (mkStore (repeat 0 8) (Sample.mkArena 8 40 1)) [])).
  reflexivity.
Defined.

Lemma setArr_empty_array_witness :
  (malloc Sample.bump 0 (store (Sample.blank 32)) = (8, Sample.allotted 0)
   /\ 8 <> 0)
  /\ setArr (-1) Sample.bump [] (fun ptr => ret (ptr + 1)) (Sample.blank 32)
     = (Return 9,
        mkWorld (Sample.allotted 0) [EvMalloc 0 8; EvCall 8; EvFree 8]).
Proof.
  split; [evaluated |].
  rewrite (setArr_empty_array (-1) Sample.bump (fun ptr => ret (ptr + 1))
             (Sample.blank 32) 8 (Sample.allotted 0) eq_refl ltac:(discriminate)).
  reflexivity.
Defined.

(** ** Names of status codes *)

Lemma distinct_values_name (Status : Enum.enum) a b v :
  NoDup (map snd Status) -> In (a, v) Status -> In (b, v) Status -> a = b.
Proof.
  induction Status as [| [n0 v0] rest IH]; intros Hnd Ha Hb; [destruct Ha |].
  cbn [map snd] in Hnd. inversion Hnd as [| ? ? Hnotin Hnd']; subst.
  destruct Ha as [Ha | Ha], Hb as [Hb | Hb].
  - congruence.
  - injection Ha as -> ->. exfalso. apply Hnotin.
    apply (in_map snd) in Hb. exact Hb.
  - injection Hb as -> ->. exfalso. apply Hnotin.
    apply (in_map snd) in Ha. exact Ha.
  - now apply IH.
Qed.

(** X13. When the members of the enumeration have distinct values,
    [codeName] of an error whose code is the value of a member is the
    name of that member. *)
Theorem codeName_is_the_declared_name (Status : Enum.enum) name v text :
  NoDup (map snd Status) ->
  In (name, v) Status ->
  codeName Status (mkSqliteError text v) = Some name.
Proof.
  intros Hnd Hin.
  destruct (name_of_found Status v (ex_intro _ name Hin)) as (n & Hn & Hm).
  unfold codeName. cbn [code]. rewrite Hn. f_equal.
  now apply (distinct_values_name Status n name v).
Qed.

(** X15. For a code that is the value of no member, [codeName] is
    undefined. *)
Theorem codeName_of_unlisted_code (Status : Enum.enum) v text :
  (forall name, ~ In (name, v) Status) ->
  codeName Status (mkSqliteError text v) = None.
Proof.
  intros Hno. unfold codeName. cbn [code].
  destruct (Enum.name_of Status v) as [n |] eqn:E; [| reflexivity].
  exfalso. apply (Hno n). now apply name_of_In.
Qed.

Lemma codeName_is_the_declared_name_witness :
  (NoDup (map snd (Enum.Status_of_spec (-1)))
   /\ In ("Unknown"%string, -1) (Enum.Status_of_spec (-1)))
  /\ codeName (Enum.Status_of_spec (-1)) (mkSqliteError (lit "Out of memory.") (-1))
     = Some "Unknown"%string.
Proof.
  assert (Hnd : NoDup (map snd (Enum.Status_of_spec (-1)))).
  { cbn. repeat constructor; cbn; intuition discriminate. }
  assert (Hin : In ("Unknown"%string, -1) (Enum.Status_of_spec (-1)))
    by (left; reflexivity).
  split; [split; assumption |].
  apply (codeName_is_the_declared_name (Enum.Status_of_spec (-1))
           "Unknown"%string (-1) (lit "Out of memory.") Hnd Hin).
Defined.

Lemma codeName_of_unlisted_code_witness :
  (forall name, ~ In (name, 5) (Enum.Status_of_spec (-1)))
  /\ codeName (Enum.Status_of_spec (-1)) (mkSqliteError (lit "busy") 5) = None.
Proof.
  assert (Hno : forall name, ~ In (name, 5) (Enum.Status_of_spec (-1))).
  { intros name [H | [H | []]]; discriminate. }
  split; [assumption |].
  apply (codeName_of_unlisted_code (Enum.Status_of_spec (-1)) 5 (lit "busy") Hno).
Defined.

(** ** The message of an error built from the module *)

Lemma well_formed_units_bounded n : forall s,
  (List.length s <= n)%nat -> Utf8.well_formed s = true -> units s.
Proof.
  induction n as [| n IH]; intros s Hn Hw.
  { destruct s; [constructor | cbn in Hn; lia]. }
  destruct s as [| c rest]; [constructor |].
  cbn [List.length] in Hn. cbn [Utf8.well_formed] in Hw.
  destruct (Utf8.is_high_surrogate c) eqn:Eh.
  - destruct rest as [| d rest']; [discriminate |].
    apply andb_true_iff in Hw. destruct Hw as [El Hw].
    unfold Utf8.is_high_surrogate, Utf8.is_low_surrogate in *.
    apply in_range_spec in Eh, El. cbn [List.length] in Hn.
    constructor; [lia |]. constructor; [lia |]. apply IH; (lia || assumption).
  - apply andb_true_iff in Hw. destruct Hw as [Hw Hr].
    apply andb_true_iff in Hw. destruct Hw as [Ec _].
    apply in_range_spec in Ec.
    constructor; [lia |]. apply IH; (lia || assumption).
Qed.

Section ErrorText.

Context {F : Type}.
Variable Status_Unknown : Z.
Variable wasm : Handle F.

(** X16. With a module whose [str_len] is [strlen]: when the memory at
    the pointer returned by [get_sqlite_error_str] holds the UTF-8
    encoding of a text (without unpaired surrogates and without U+0000;
    at most 16 bytes, or not beginning with U+FEFF) followed by a zero
    byte, the [SqliteError] built from the module has that text as its
    message, and as its code the [code] argument or else the status of
    the module. *)
Theorem SqliteError_message_is_module_text code (w : World F) text rest :
  c_strings wasm ->
  Utf8.well_formed text = true ->
  no_nul text ->
  Z.of_nat (List.length (Utf8.TextEncoder_encode text)) <= 16
  \/ leading_bom text = false ->
  0 <= get_sqlite_error_str wasm (store w) ->
  skipn (Z.to_nat (get_sqlite_error_str wasm (store w))) (buffer (store w))
  = Utf8.TextEncoder_encode text ++ 0 :: rest ->
  new_SqliteError Status_Unknown (inl wasm) code w
  = (Return (mkSqliteError text
               (match code with Some c => c | None => get_status wasm (store w) end)),
     w).
Proof.
  intros Hc Hwf Hn Hbom Hp Hmem.
  set (p := get_sqlite_error_str wasm (store w)) in *.
  set (bytes := Utf8.TextEncoder_encode text) in *.
  pose proof (well_formed_units_bounded (List.length text) text ltac:(lia) Hwf) as Hu.
  destruct (to_scalars_units text Hu) as (Hs & _ & _ & Hz).
  destruct (to_scalars_well_formed text Hwf) as (_ & Hut & Hb).
  assert (Hsl : str_len wasm p (store w) = Z.of_nat (List.length bytes)).
  { rewrite Hc, Hmem. apply strlen_from_terminated.
    apply encode_cps_nonzero; [assumption | now apply Hz]. }
  assert (Hlen : (Z.to_nat p + List.length bytes < List.length (buffer (store w)))%nat).
  { pose proof (f_equal (@List.length Z) Hmem) as Hl.
    rewrite length_skipn, length_app in Hl. cbn [List.length] in Hl. lia. }
  assert (Hfit : fits p (str_len wasm p (store w)) (buffer (store w)) = true).
  { rewrite Hsl. apply fits_spec. lia. }
  assert (Hwin : window p (str_len wasm p (store w)) (buffer (store w)) = bytes).
  { unfold window. rewrite Hsl, Hmem, Nat2Z.id.
    rewrite firstn_app, Nat.sub_diag, firstn_all. cbn [firstn].
    apply app_nil_r. }
  rewrite new_SqliteError_run. fold p.
  rewrite (getStr_wf wasm p w (Utf8.to_scalars text) Hfit).
  - now rewrite Hut.
  - rewrite Hwin. now apply TextEncoder_wf.
  - rewrite Hwin, Hsl. destruct Hbom as [Hl | Hl]; [now left | right].
    apply encode_without_bom; [assumption | now apply Hb].
Qed.

End ErrorText.

Lemma SqliteError_message_is_module_text_witness :
  (c_strings Sample.bump
   /\ Utf8.well_formed Sample.mixed = true
   /\ no_nul Sample.mixed
   /\ Z.of_nat (List.length (Utf8.TextEncoder_encode Sample.mixed)) <= 16
   /\ 0 <= get_sqlite_error_str Sample.bump
             (store (Sample.failed (Utf8.TextEncoder_encode Sample.mixed) 19))
   /\ skipn (Z.to_nat (get_sqlite_error_str Sample.bump
                         (store (Sample.failed (Utf8.TextEncoder_encode Sample.mixed) 19))))
        (buffer (store (Sample.failed (Utf8.TextEncoder_encode Sample.mixed) 19)))
      = Utf8.TextEncoder_encode Sample.mixed ++ 0 :: repeat 0 7)
  /\ new_SqliteError (-1) (inl Sample.bump) None
       (Sample.failed (Utf8.TextEncoder_encode Sample.mixed) 19)
     = (Return (mkSqliteError Sample.mixed 19),
        Sample.failed (Utf8.TextEncoder_encode Sample.mixed) 19).
Proof.
  assert (Hc : c_strings Sample.bump) by (intros p st; reflexivity).
  assert (Hn : no_nul Sample.mixed) by (repeat constructor; lia).
  assert (Hl : Z.of_nat (List.length (Utf8.TextEncoder_encode Sample.mixed)) <= 16)
    by (vm_compute; discriminate).
  assert (Hp : 0 <= get_sqlite_error_str Sample.bump
                      (store (Sample.failed (Utf8.TextEncoder_encode Sample.mixed) 19)))
    by (vm_compute; discriminate).
  split; [repeat match goal with |- _ /\ _ => split end;
          first [assumption | reflexivity] |].
  apply (SqliteError_message_is_module_text (-1) Sample.bump None
           (Sample.failed (Utf8.TextEncoder_encode Sample.mixed) 19)
           Sample.mixed (repeat 0 7) Hc eq_refl Hn (or_introl Hl) Hp eq_refl).
Defined.

(** ** What [setStr] writes *)

Section Written.

Context {F T : Type}.
Variable Status_Unknown : Z.
Variable wasm : Handle F.
Variable closure : Z -> M F T.

(** C4. [setStr] asks [malloc] for the UTF-8 length of the string plus
    one, and the continuation starts in a memory whose window of that
    size at the returned pointer holds the encoded bytes followed by one
    zero byte, the rest of the memory being as [malloc] left it.  The
    encoded bytes are UTF-8 of the string: well-formed UTF-8 whose code
    points, put back in UTF-16, are the string with its unpaired
    surrogates replaced by U+FFFD, hence the string itself when it has
    none.  For "héllo" that is 7 bytes, 68 C3 A9 6C 6C 6F 00; for a
    string with a surrogate pair, see the last conjunct. *)
Theorem setStr_writes_terminated_utf8 str (w : World F) ptr s :
  malloc wasm (Z.of_nat (List.length (Utf8.TextEncoder_encode str)) + 1) (store w)
  = (ptr, s) ->
  ptr <> 0 ->
  let n := Z.of_nat (List.length (Utf8.TextEncoder_encode str)) in
  let w_in := entered (Str str) ptr s (log w) in
  setStr Status_Unknown wasm str closure w = released wasm ptr (closure ptr w_in)
  /\ log w_in = log w ++ [EvMalloc (n + 1) ptr; EvCall ptr]
  /\ window ptr (n + 1) (buffer (store w_in)) = Utf8.TextEncoder_encode str ++ [0]
  /\ List.length (buffer (store w_in)) = List.length (buffer s)
  /\ firstn (Z.to_nat ptr) (buffer (store w_in)) = firstn (Z.to_nat ptr) (buffer s)
  /\ skipn (Z.to_nat (ptr + n + 1)) (buffer (store w_in))
     = skipn (Z.to_nat (ptr + n + 1)) (buffer s)
  /\ (units str ->
      exists cps,
        Utf8.parse (firstn (Z.to_nat n) (window ptr (n + 1) (buffer (store w_in))))
        = Some cps
        /\ Forall Utf8.scalar cps
        /\ Utf8.utf16 cps = toWellFormed str
        /\ (Utf8.well_formed str = true -> Utf8.utf16 cps = str))
  /\ Z.of_nat (List.length (Utf8.TextEncoder_encode Sample.hello)) + 1 = 7
  /\ Utf8.TextEncoder_encode Sample.hello ++ [0]
     = [0x68; 0xC3; 0xA9; 0x6C; 0x6C; 0x6F; 0x00]
  /\ Utf8.TextEncoder_encode Sample.mixed ++ [0]
     = [0xF0; 0x9F; 0x98; 0x80; 0xE2; 0x82; 0xAC; 0xC3; 0xA9; 0x61; 0x00].
Proof.
  intros Hm Hp n w_in.
  destruct (setStr_entry Status_Unknown wasm closure str w ptr s Hm Hp)
    as (Hrun & Hlog & Hwin & Hlen & Hbefore & Hafter).
  fold n in Hlog, Hwin, Hafter. fold w_in in Hrun, Hlog, Hwin, Hlen, Hbefore, Hafter.
  repeat match goal with
         | |- _ = _ /\ _ => split; [assumption |]
         end.
  split.
  { intros Hu. destruct (to_scalars_units str Hu) as (Hs & Hut & _ & _).
    exists (Utf8.to_scalars str).
    rewrite Hwin. unfold n. rewrite Nat2Z.id.
    rewrite firstn_app, Nat.sub_diag, firstn_all. cbn [firstn].
    rewrite app_nil_r.
    split; [apply wf_parse; now apply encode_cps_wf |].
    split; [assumption |]. split; [assumption |].
    intros Hwf. rewrite Hut.
    apply (toWellFormed_id_bounded (List.length str)); (lia || assumption). }
  repeat split.
Qed.

End Written.

Lemma setStr_writes_terminated_utf8_witness :
  (malloc Sample.bump
     (Z.of_nat (List.length (Utf8.TextEncoder_encode Sample.mixed)) + 1)
     (store (Sample.blank 32))
   = (8, Sample.allotted 11)
   /\ 8 <> 0
   /\ units Sample.mixed)
  /\ log (entered (Str Sample.mixed) 8 (Sample.allotted 11) [])
     = [EvMalloc 11 8; EvCall 8]
  /\ window 8 11 (buffer (store (entered (Str Sample.mixed) 8 (Sample.allotted 11) [])))
     = [0xF0; 0x9F; 0x98; 0x80; 0xE2; 0x82; 0xAC; 0xC3; 0xA9; 0x61; 0x00]
  /\ exists cps,
       Utf8.parse
         (firstn 10
            (window 8 11
               (buffer (store (entered (Str Sample.mixed) 8 (Sample.allotted 11) [])))))
       = Some cps
       /\ Forall Utf8.scalar cps
       /\ Utf8.utf16 cps = toWellFormed Sample.mixed
       /\ (Utf8.well_formed Sample.mixed = true -> Utf8.utf16 cps = Sample.mixed).
Proof.
  assert (Hu : units Sample.mixed) by (repeat constructor; lia).
  split; [repeat match goal with |- _ /\ _ => split end;
          first [assumption | reflexivity | discriminate] |].
  pose proof (setStr_writes_terminated_utf8 (-1) Sample.bump (Sample.boom 5)
                Sample.mixed (Sample.blank 32) 8 (Sample.allotted 11)
                eq_refl ltac:(discriminate))
    as (_ & Hlog & Hwin & _ & _ & _ & Hutf & _).
  split; [exact Hlog |]. split; [exact Hwin |]. exact (Hutf Hu).
Defined.
